(** * Migration 0009 of the network app: LAGG member options and MTU

    A shallow embedding of
    [gui/network/migrations/0009_move_options_and_mtu.py]:
    the two [RunPython] steps [move_laggmember_options] and
    [move_mtu_from_options], the two schema steps between them, and the
    pieces of the Python library they call ([str.replace],
    [str.startswith], [str.endswith], [re.search] on [RE_MTU], [re.sub]
    on a run of blanks, [int]).

    Python strings are modelled as [string], a sequence of code points
    below 256; the character classes of [re] are written out for that
    whole range.  A table is the list of its rows in primary-key order, and
    a row's primary key is its position in the list; a foreign key is such
    a position.  A Python exception is [None] in the option monad.

    From [gui/system/models.py] the file embeds what the certificate models
    compute from [cert_type], [cert_root_path] and [cert_name], and how
    [Advanced] and [Email] load and save their stored password. *)

From Stdlib Require Import NArith ZArith Ascii String Bool Lia.
From stdpp Require Import base option list.

Local Open Scope string_scope.
Local Open Scope N_scope.

(** ** Character classes of [re] on [str] patterns *)

Module Char.

Definition ord (c : ascii) : N := N_of_ascii c.

Definition between (lo hi : N) (c : ascii) : bool :=
  (lo <=? ord c) && (ord c <=? hi).

(** [\d]: the decimal digits. *)
Definition is_decimal (c : ascii) : bool := between 48 57 c.

(** [\s]: the blanks of [str.isspace] below 256. *)
Definition is_space (c : ascii) : bool :=
  between 9 13 c || between 28 32 c || (ord c =? 133) || (ord c =? 160).

(** [str.isalnum] below 256. *)
Definition is_alnum (c : ascii) : bool :=
  is_decimal c || between 65 90 c || between 97 122 c
  || (ord c =? 170) || between 178 179 c || (ord c =? 181)
  || between 185 186 c || between 188 190 c
  || between 192 214 c || between 216 246 c || between 248 255 c.

(** [\w]: alphanumeric or the underscore. *)
Definition is_word (c : ascii) : bool := is_alnum c || (ord c =? 95).

(** [.] without DOTALL: anything but the line feed. *)
Definition is_linebreak (c : ascii) : bool := ord c =? 10.

End Char.

(** ** The [str] methods the migration calls *)

Module Str.

(** [s.startswith(p)] *)
Definition startswith (p s : string) : bool := String.prefix p s.

(** [s.endswith(p)]: some suffix of [s] is [p]. *)
Fixpoint endswith (p s : string) : bool :=
  String.eqb s p
  || match s with
     | EmptyString => false
     | String _ s' => endswith p s'
     end.

(** [s.replace(old, new)] for a non-empty [old]: the occurrences of [old]
    are found from left to right and do not overlap.  [skip] counts the
    characters of the occurrence just replaced that are still to be
    passed over. *)
Fixpoint replace_from (old new : string) (skip : nat) (s : string) : string :=
  match s with
  | EmptyString => EmptyString
  | String c s' =>
      match skip with
      | S k => replace_from old new k s'
      | O =>
          if String.prefix old s
          then new ++ replace_from old new (String.length old - 1) s'
          else String c (replace_from old new 0 s')
      end
  end.

Definition replace (old new s : string) : string := replace_from old new 0 s.

(** [int(s)] on a string of decimal digits. *)
Definition digit_value (c : ascii) : N := Char.ord c - 48.

Fixpoint int_from (acc : N) (s : string) : N :=
  match s with
  | EmptyString => acc
  | String c s' => int_from (10 * acc + digit_value c) s'
  end.

Definition int (s : string) : N := int_from 0 s.

(** Truth value of a string: [not s] holds of the empty string only. *)
Definition truthy (s : string) : bool :=
  match s with EmptyString => false | _ => true end.

End Str.

(** ** The regular expressions *)

Module Re.

(** The three named groups of a match of [RE_MTU]. *)
Record groups := Groups { before : string; mtu : string; after : string }.

(** [\b] between the character [prev] just passed ([None] at the start of
    the string) and the rest [s]: exactly one side is a word character. *)
Definition word_boundary (prev : option ascii) (s : string) : bool :=
  xorb (from_option Char.is_word false prev)
       (match s with
        | EmptyString => false
        | String c _ => Char.is_word c
        end).

(** The group [after], a trailing [.*]: greedy, and nothing follows it,
    so it takes the rest of the line. *)
Fixpoint dot_star (s : string) : string :=
  match s with
  | EmptyString => EmptyString
  | String c s' =>
      if Char.is_linebreak c then EmptyString else String c (dot_star s')
  end.

(** [\b] and the group [after] behind the digits, [prev] being the last
    digit. *)
Definition boundary_then_after (prev : ascii) (s : string)
  : option (string * string) :=
  if word_boundary (Some prev) s then Some (EmptyString, dot_star s) else None.

(** The greedy rest of [\d+] followed by [\b] and the group [after]: one
    more digit is tried first, and the engine falls back to stopping
    here. *)
Fixpoint digits_then (prev : ascii) (s : string) : option (string * string) :=
  match s with
  | String c s' =>
      if Char.is_decimal c then
        match digits_then c s' with
        | Some (d, a) => Some (String c d, a)
        | None => boundary_then_after prev s
        end
      else boundary_then_after prev s
  | EmptyString => boundary_then_after prev s
  end.

(** A literal piece [p] of a pattern at the head of [s]: what is left of
    [s] behind it. *)
Fixpoint literal (p s : string) : option string :=
  match p with
  | EmptyString => Some s
  | String a p' =>
      match s with
      | String b s' => if Ascii.eqb a b then literal p' s' else None
      | EmptyString => None
      end
  end.

(** The pattern behind the group [before], at the head of [s]: [\b], the
    literal [mtu] and one space, the group [mtu] = [\d+], [\b], and the
    group [after]. *)
Definition token_here (prev : option ascii) (s : string)
  : option (string * string) :=
  if word_boundary prev s then
    match literal "mtu " s with
    | Some (String c s') =>
        if Char.is_decimal c then
          match digits_then c s' with
          | Some (d, a) => Some (String c d, a)
          | None => None
          end
        else None
    | _ => None
    end
  else None.

(** The whole pattern at the head of [s]: the group [before] = [.*] is
    greedy, so it first takes one more character of the line, and gives it
    back when the rest of the pattern fails further on. *)
Fixpoint match_here (prev : option ascii) (s : string) : option groups :=
  let stop :=
    match token_here prev s with
    | Some (d, a) => Some (Groups EmptyString d a)
    | None => None
    end in
  match s with
  | String c s' =>
      if Char.is_linebreak c then stop
      else
        match match_here (Some c) s' with
        | Some g => Some (Groups (String c (before g)) (mtu g) (after g))
        | None => stop
        end
  | EmptyString => stop
  end.

(** [pattern.search(s)]: the match at the leftmost start that has one. *)
Fixpoint search_from (prev : option ascii) (s : string) : option groups :=
  match match_here prev s with
  | Some g => Some g
  | None =>
      match s with
      | String c s' => search_from (Some c) s'
      | EmptyString => None
      end
  end.

(** The source text of the pattern compiled into [RE_MTU]. *)
Definition RE_MTU_pattern : string :=
  "(?P<before>.*)\bmtu (?P<mtu>\d+)\b(?P<after>.*)".

(** [RE_MTU.search(s)] *)
Definition RE_MTU_search (s : string) : option groups := search_from None s.

(** [re.sub(r'\s{2,}', ' ', s)]: every maximal run of two or more blanks
    becomes one space; a blank on its own is kept as it is.  [in_run]
    says that the blanks at the head belong to a run already replaced. *)
Fixpoint sub_blanks_from (in_run : bool) (s : string) : string :=
  match s with
  | EmptyString => EmptyString
  | String c s' =>
      if Char.is_space c then
        if in_run then sub_blanks_from true s'
        else
          match s' with
          | String c' _ =>
              if Char.is_space c' then String " " (sub_blanks_from true s')
              else String c (sub_blanks_from false s')
          | EmptyString => String c EmptyString
          end
      else String c (sub_blanks_from false s')
  end.

Definition sub_blanks (s : string) : string := sub_blanks_from false s.

End Re.

(** ** The tables and the two data steps *)

(** A loop whose body may raise: the first exception ends it. *)
Fixpoint for_each {S A : Type} (body : S -> A -> option S) (s : S) (l : list A)
  : option S :=
  match l with
  | [] => Some s
  | x :: l' =>
      match body s x with
      | Some s' => for_each body s' l'
      | None => None
      end
  end.

Section Migration.

(** The columns of [Interfaces] the migration never names, and the value
    they take in a row made by [objects.create]. *)
Context {Rest : Type} (default_rest : Rest).

(** A row of [network.Interfaces].  The column [int_mtu] is added by the
    third operation of the migration; before that, rows carry [None]. *)
Record Interfaces := mkInterfaces {
  int_interface : string;
  int_name : string;
  int_options : string;
  int_mtu : option N;
  int_rest : Rest
}.

(** A row of [network.LAGGInterface]; [lagg_interface] is the key of its
    own row of [Interfaces]. *)
Record LAGGInterface := mkLAGGInterface {
  lagg_interface : nat
}.

(** A row of [network.LAGGInterfaceMembers]; [lagg_interfacegroup] is the
    key of the owning row of [LAGGInterface]. *)
Record LAGGInterfaceMembers := mkLAGGInterfaceMembers {
  lagg_interfacegroup : nat;
  lagg_physnic : string;
  lagg_deviceoptions : string
}.

(** The three tables, as [apps.get_model] hands them out. *)
Record apps := mkApps {
  interfaces : list Interfaces;
  lagginterface : list LAGGInterface;
  lagginterfacemembers : list LAGGInterfaceMembers
}.

Definition set_int_options (o : string) (i : Interfaces) : Interfaces :=
  mkInterfaces (int_interface i) (int_name i) o (int_mtu i) (int_rest i).

Definition set_int_mtu (m : option N) (i : Interfaces) : Interfaces :=
  mkInterfaces (int_interface i) (int_name i) (int_options i) m (int_rest i).

Definition with_interfaces (tbl : list Interfaces) (db : apps) : apps :=
  mkApps tbl (lagginterface db) (lagginterfacemembers db).

(** [Interfaces.objects.filter(int_interface=nic)], then [.exists()] and
    [[0]]: the first row of that name with its key, if any. *)
Fixpoint filter_int_interface (nic : string) (tbl : list Interfaces)
  : option (nat * Interfaces) :=
  match tbl with
  | [] => None
  | i :: tbl' =>
      if String.eqb (int_interface i) nic then Some (O, i)
      else
        match filter_int_interface nic tbl' with
        | Some (k, j) => Some (S k, j)
        | None => None
        end
  end.

(** *** [move_laggmember_options] *)

(** The value of the local [options] for a member's [lagg_deviceoptions]. *)
Definition relocated_options (deviceoptions : string) : string :=
  if negb (String.eqb deviceoptions "up") then
    if Str.startswith "up" deviceoptions then
      Str.replace "up " "" deviceoptions
    else if Str.endswith "up" deviceoptions then
      Str.replace " up" "" deviceoptions
    else
      Str.replace " up " "" deviceoptions
  else "".

(** The body of the loop over the members. *)
Definition move_laggmember (db : apps) (laggmember : LAGGInterfaceMembers)
  : option apps :=
  let options := relocated_options (lagg_deviceoptions laggmember) in
  match filter_int_interface (lagg_physnic laggmember) (interfaces db) with
  | Some (k, interface) =>
      Some (with_interfaces
              (<[k := set_int_options options interface]> (interfaces db)) db)
  | None =>
      lagg ← lagginterface db !! lagg_interfacegroup laggmember;
      parent ← interfaces db !! lagg_interface lagg;
      Some (with_interfaces
              (interfaces db ++
               [mkInterfaces (lagg_physnic laggmember)
                             ("member of " ++ int_interface parent)
                             options None default_rest])%list db)
  end.

Definition move_laggmember_options (db : apps) : option apps :=
  for_each move_laggmember db (lagginterfacemembers db).

(** *** The schema steps *)

(** [RemoveField('lagginterfacemembers', 'lagg_deviceoptions')]: the
    column is gone; the model keeps an empty value in its place. *)
Definition remove_lagg_deviceoptions (db : apps) : apps :=
  mkApps (interfaces db) (lagginterface db)
         (map (fun m => mkLAGGInterfaceMembers
                          (lagg_interfacegroup m) (lagg_physnic m) "")
              (lagginterfacemembers db)).

(** [AddField('interfaces', 'int_mtu', null=True)]: every row gets a null. *)
Definition add_int_mtu (db : apps) : apps :=
  with_interfaces (map (set_int_mtu None) (interfaces db)) db.

(** *** [move_mtu_from_options] *)

(** The body of the first loop on one row: [None] for [continue], the row
    to save otherwise. *)
Definition extract_mtu (i : Interfaces) : option Interfaces :=
  if negb (Str.truthy (int_options i)) then None
  else
    match Re.RE_MTU_search (int_options i) with
    | None => None
    | Some reg =>
        Some (set_int_options
                (Re.sub_blanks (Re.before reg ++ Re.after reg))
                (set_int_mtu (Some (Str.int (Re.mtu reg))) i))
    end.

(** What the loop body leaves in the place of a row. *)
Definition extracted (i : Interfaces) : Interfaces :=
  default i (extract_mtu i).

Definition extract_step (tbl : list Interfaces) (row : nat * Interfaces)
  : list Interfaces :=
  match extract_mtu (snd row) with
  | Some i => <[fst row := i]> tbl
  | None => tbl
  end.

(** The first loop: over the rows as [objects.all()] returned them. *)
Definition extract_all (tbl : list Interfaces) : list Interfaces :=
  foldl extract_step tbl (imap pair tbl).

(** Truth value of an optional integer: [None] and [0] are false. *)
Definition mtu_truthy (m : option N) : bool :=
  match m with
  | Some n => negb (n =? 0)
  | None => false
  end.

(** The body of the loop over the members of one LAGG; the state is the
    table and the local [lowest_mtu]. *)
Definition consolidate_member (st : list Interfaces * option N)
           (member : LAGGInterfaceMembers) : list Interfaces * option N :=
  match filter_int_interface (lagg_physnic member) (fst st) with
  | None => st
  | Some (k, interface) =>
      if mtu_truthy (int_mtu interface) then
        let lowest_mtu :=
          if negb (mtu_truthy (snd st)) then int_mtu interface
          else
            match int_mtu interface, snd st with
            | Some n, Some l => if n <? l then Some n else Some l
            | _, _ => snd st
            end in
        (<[k := set_int_mtu None interface]> (fst st), lowest_mtu)
      else st
  end.

(** [lagg.lagginterfacemembers_set.all()] for the LAGG of key [pk]. *)
Definition lagginterfacemembers_set (db : apps) (pk : nat)
  : list LAGGInterfaceMembers :=
  filter (fun m => lagg_interfacegroup m = pk) (lagginterfacemembers db).

(** The body of the second loop, for the LAGG [lagg] of key [pk]. *)
Definition consolidate_lagg (db : apps) (row : nat * LAGGInterface)
  : option apps :=
  let st := foldl consolidate_member (interfaces db, None)
                  (lagginterfacemembers_set db (fst row)) in
  if mtu_truthy (snd st) then
    interface ← fst st !! lagg_interface (snd row);
    Some (with_interfaces
            (<[lagg_interface (snd row) := set_int_mtu (snd st) interface]>
               (fst st)) db)
  else Some (with_interfaces (fst st) db).

Definition move_mtu_from_options (db : apps) : option apps :=
  for_each consolidate_lagg
           (with_interfaces (extract_all (interfaces db)) db)
           (imap pair (lagginterface db)).

(** *** [Migration.operations], in order *)
Definition migrate (db : apps) : option apps :=
  db1 ← move_laggmember_options db;
  move_mtu_from_options (add_int_mtu (remove_lagg_deviceoptions db1)).

End Migration.

Arguments Interfaces Rest : clear implicits.
Arguments apps Rest : clear implicits.

(** ** The certificate models of [system/models.py] *)

Module Cert.

Definition CA_TYPE_EXISTING : Z := 1.
Definition CA_TYPE_INTERNAL : Z := 2.
Definition CA_TYPE_INTERMEDIATE : Z := 4.
Definition CERT_TYPE_EXISTING : Z := 8.
Definition CERT_TYPE_INTERNAL : Z := 16.
Definition CERT_TYPE_CSR : Z := 32.

(** [if self.cert_type & MASK: ret = True], as the six properties have it. *)
Definition has_type (cert_type mask : Z) : bool :=
  negb (Z.land cert_type mask =? 0)%Z.

Definition cert_type_existing (cert_type : Z) : bool :=
  has_type cert_type CERT_TYPE_EXISTING.
Definition cert_type_internal (cert_type : Z) : bool :=
  has_type cert_type CERT_TYPE_INTERNAL.
Definition cert_type_CSR (cert_type : Z) : bool :=
  has_type cert_type CERT_TYPE_CSR.
Definition CA_type_existing (cert_type : Z) : bool :=
  has_type cert_type CA_TYPE_EXISTING.
Definition CA_type_internal (cert_type : Z) : bool :=
  has_type cert_type CA_TYPE_INTERNAL.
Definition CA_type_intermediate (cert_type : Z) : bool :=
  has_type cert_type CA_TYPE_INTERMEDIATE.

(** The property [cert_internal]. *)
Definition cert_internal (cert_type : Z) : string :=
  if (cert_type =? CA_TYPE_EXISTING)%Z then "NO"
  else if (cert_type =? CERT_TYPE_EXISTING)%Z then "NO"
  else "YES".

(** What [cert_issuer] returns: a text, or the signing authority. *)
Inductive issuer (CA : Type) : Type :=
| issuer_text (s : string)
| issuer_ca (ca : CA).

Arguments issuer_text {CA} s.
Arguments issuer_ca {CA} ca.

(** The property [cert_issuer]; [cert_signedby] is a foreign key that may
    be null. *)
Definition cert_issuer {CA : Type} (cert_type : Z) (cert_signedby : option CA)
  : option (issuer CA) :=
  if (cert_type =? CA_TYPE_EXISTING)%Z || (cert_type =? CERT_TYPE_EXISTING)%Z
  then Some (issuer_text "external")
  else if (cert_type =? CA_TYPE_INTERNAL)%Z
  then Some (issuer_text "self-signed")
  else if (cert_type =? CERT_TYPE_INTERNAL)%Z
          || (cert_type =? CA_TYPE_INTERMEDIATE)%Z
  then issuer_ca <$> cert_signedby
  else if (cert_type =? CERT_TYPE_CSR)%Z
  then Some (issuer_text "external - signature pending")
  else None.

(** [get_certificate_path], [get_privatekey_path] and [get_CSR_path]; the
    properties [cert_certificate_path], [cert_privatekey_path] and
    [cert_CSR_path] compute the same. *)
Definition get_certificate_path (cert_root_path cert_name : string) : string :=
  cert_root_path ++ "/" ++ cert_name ++ ".crt".
Definition get_privatekey_path (cert_root_path cert_name : string) : string :=
  cert_root_path ++ "/" ++ cert_name ++ ".key".
Definition get_CSR_path (cert_root_path cert_name : string) : string :=
  cert_root_path ++ "/" ++ cert_name ++ ".csr".

End Cert.

(** ** The stored password of [Advanced] and of [Email] *)

Section Pwenc.

(** [notifier().pwenc_encrypt] and [notifier().pwenc_decrypt], the latter
    with [None] where it raises. *)
Context (pwenc_encrypt : string -> string)
        (pwenc_decrypt : string -> option string).

(** The two attributes of the object: [adv_sed_passwd] (or [em_pass]) and
    [_adv_sed_passwd_encrypted] (or [_em_pass_encrypted]). *)
Record secret := mkSecret {
  passwd : string;
  encrypted : bool
}.

(** [__init__], once the fields are set from the stored [column]. *)
Definition secret_init (column : string) : secret :=
  mkSecret
    (if Str.truthy column then
       match pwenc_decrypt column with
       | Some plain => plain
       | None => ""
       end
     else column)
    false.

(** [save]: the object afterwards, and the value written to the column. *)
Definition secret_save (o : secret) : secret * string :=
  if Str.truthy (passwd o) && negb (encrypted o) then
    (mkSecret (pwenc_encrypt (passwd o)) true, pwenc_encrypt (passwd o))
  else (o, passwd o).

(** An assignment to the password attribute. *)
Definition set_passwd (p : string) (o : secret) : secret :=
  mkSecret p (encrypted o).

End Pwenc.

(** ** Vocabulary of the statements *)

Module Text.

(** [p] occurs in [s] as a substring. *)
Fixpoint occurs (p s : string) : bool :=
  String.prefix p s
  || match s with
     | EmptyString => false
     | String _ s' => occurs p s'
     end.

(** The number of places of [s] where [p] starts. *)
Fixpoint count (p s : string) : nat :=
  ((if String.prefix p s then 1 else 0)
   + match s with
     | EmptyString => 0
     | String _ s' => count p s'
     end)%nat.

(** The last character of [s], or [prev] when [s] is empty. *)
Fixpoint last_or (prev : option ascii) (s : string) : option ascii :=
  match s with
  | EmptyString => prev
  | String c s' => last_or (Some c) s'
  end.

(** [s] ends in a word character; [s] begins with one. *)
Definition ends_word (prev : option ascii) (s : string) : bool :=
  from_option Char.is_word false (last_or prev s).

Definition starts_word (s : string) : bool :=
  match s with
  | EmptyString => false
  | String c _ => Char.is_word c
  end.

Fixpoint all_decimal (s : string) : bool :=
  match s with
  | EmptyString => true
  | String c s' => Char.is_decimal c && all_decimal s'
  end.

Fixpoint no_linebreak (s : string) : bool :=
  match s with
  | EmptyString => true
  | String c s' => negb (Char.is_linebreak c) && no_linebreak s'
  end.

(** [s] splits as [pre], the word [mtu], one space, the number [n] and
    [post], the word and the number standing alone: no word character
    right before the one or right after the other.  [prev] is the
    character before [s], if any. *)
Definition token_split (prev : option ascii) (s pre n post : string) : Prop :=
  s = pre ++ "mtu " ++ n ++ post
  /\ n <> EmptyString
  /\ all_decimal n = true
  /\ ends_word prev pre = false
  /\ starts_word post = false.

(** [s], behind the character [prev], holds a standalone token. *)
Definition token_behind (prev : option ascii) (s : string) : Prop :=
  exists pre n post, token_split prev s pre n post.

(** [s] holds a standalone token. *)
Definition mtu_token (s : string) : Prop := token_behind None s.

(** No character of [s] is a blank. *)
Fixpoint no_blank (s : string) : bool :=
  match s with
  | EmptyString => true
  | String c s' => negb (Char.is_space c) && no_blank s'
  end.

(** The line feed, as a string. *)
Definition LF : string := String "010"%char EmptyString.

(** [s] begins with a blank. *)
Definition starts_blank (s : string) : bool :=
  match s with
  | EmptyString => false
  | String c _ => Char.is_space c
  end.

(** The text stops at [s], or a line feed comes first. *)
Definition line_end (s : string) : bool :=
  match s with
  | EmptyString => true
  | String c _ => Char.is_linebreak c
  end.

(** No two blanks of [s] are neighbours. *)
Fixpoint no_blank_run (s : string) : bool :=
  match s with
  | String c ((String c' _) as s') =>
      negb (Char.is_space c && Char.is_space c') && no_blank_run s'
  | _ => true
  end.

(** The least of a list of numbers, if it has any. *)
Fixpoint minimum (l : list N) : option N :=
  match l with
  | [] => None
  | x :: l' =>
      match minimum l' with
      | Some m => Some (N.min x m)
      | None => Some x
      end
  end.

End Text.

Section Vocabulary.

Context {Rest : Type}.

(** The [int_mtu] that a member brings to its LAGG: that of the first row
    of its NIC, when it is neither null nor zero. *)
Definition member_mtu (tbl : list (Interfaces Rest))
           (m : LAGGInterfaceMembers) : option N :=
  match filter_int_interface (lagg_physnic m) tbl with
  | Some (_, i) => if mtu_truthy (int_mtu i) then int_mtu i else None
  | None => None
  end.

Definition member_mtus (tbl : list (Interfaces Rest))
           (members : list LAGGInterfaceMembers) : list N :=
  omap (member_mtu tbl) members.

(** The running minimum, and its value after a list of numbers. *)
Definition lower (low : option N) (v : N) : option N :=
  match low with
  | Some l => Some (N.min l v)
  | None => Some v
  end.

Definition lowest_of (low : option N) (l : list N) : option N :=
  foldl lower low l.

(** The state of the loop over the members of a LAGG, after the loop. *)
Definition consolidate_members (tbl : list (Interfaces Rest)) (low : option N)
           (members : list LAGGInterfaceMembers)
  : list (Interfaces Rest) * option N :=
  foldl consolidate_member (tbl, low) members.

End Vocabulary.

(** ** Sample tables *)

Module Sample.

(** A row with no other column. *)
Definition row (nic name options : string) (mtu : option N) : Interfaces unit :=
  mkInterfaces nic name options mtu tt.

(** One LAGG, [lagg0], on the first row. *)
Definition lagg0 : LAGGInterface := mkLAGGInterface 0.

(** [lagg0] with one member, [em0], that has a row; its device options
    hold the given text. *)
Definition db_member (deviceoptions : string) : apps unit :=
  mkApps [row "lagg0" "lagg0" "" None; row "em0" "em0" "" None]
         [lagg0]
         [mkLAGGInterfaceMembers 0 "em0" deviceoptions].

(** [lagg0] with one member, [em0], that has no row yet. *)
Definition db_no_row : apps unit :=
  mkApps [row "lagg0" "lagg0" "" None]
         [lagg0]
         [mkLAGGInterfaceMembers 0 "em0" "up mtu 9000"].

(** [lagg0] with the members [em0] and [em1], after the first loop of
    [move_mtu_from_options]. *)
Definition db_two_members : apps unit :=
  mkApps [row "lagg0" "lagg0" "" None;
          row "em0" "em0" "" (Some 9000);
          row "em1" "em1" "" (Some 1500)]
         [lagg0]
         [mkLAGGInterfaceMembers 0 "em0" "";
          mkLAGGInterfaceMembers 0 "em1" ""].

(** [lagg0] listed among its own members, next to [em0] with an
    [int_mtu] of zero and [em1]. *)
Definition db_zero : apps unit :=
  mkApps [row "lagg0" "lagg0" "" (Some 9000);
          row "em0" "em0" "" (Some 0);
          row "em1" "em1" "" (Some 1500)]
         [lagg0]
         [mkLAGGInterfaceMembers 0 "lagg0" "";
          mkLAGGInterfaceMembers 0 "em0" "";
          mkLAGGInterfaceMembers 0 "em1" ""].

(** [lagg0] before the migration, with the member [em0] that has a row
    and the member [em1] that has none. *)
Definition db_before : apps unit :=
  mkApps [row "lagg0" "lagg0" "" None; row "em0" "em0" "media auto" None]
         [lagg0]
         [mkLAGGInterfaceMembers 0 "em0" "up mtu 9000";
          mkLAGGInterfaceMembers 0 "em1" "mtu 1500 up"].

End Sample.

(** ** Facts about strings *)

Lemma append_nil_r (s : string) : s ++ "" = s.
Proof. induction s as [|c s IH]; simpl; congruence. Qed.

Lemma append_assoc (a b c : string) : (a ++ b) ++ c = a ++ b ++ c.
Proof. induction a as [|x a IH]; simpl; congruence. Qed.

Lemma prefix_cons (p : string) (c : ascii) (s : string) :
  String.prefix p (String c s)
  = match p with
    | EmptyString => true
    | String a p' => if ascii_dec a c then String.prefix p' s else false
    end.
Proof. destruct p; reflexivity. Qed.

Lemma prefix_nil (s : string) : String.prefix "" s = true.
Proof. destruct s; reflexivity. Qed.

Lemma occurs_cons (p : string) (c : ascii) (s : string) :
  Text.occurs p (String c s) = false ->
  String.prefix p (String c s) = false /\ Text.occurs p s = false.
Proof. cbn [Text.occurs]. intros H. apply orb_false_iff in H. exact H. Qed.

(** A string that does not hold [old] is left as it is. *)
Lemma replace_absent (old new s : string) :
  Text.occurs old s = false -> Str.replace old new s = s.
Proof.
  unfold Str.replace.
  induction s as [|c s IH]; intros H; [reflexivity|].
  apply occurs_cons in H as [Hp Ho].
  cbn [Str.replace_from]. rewrite Hp. f_equal. auto.
Qed.

(** Behind a non-empty [r], the suffix [" up"] adds no occurrence at the
    head. *)
Lemma prefix_up_suffix (c : ascii) (r : string) :
  String.prefix " up" (String c r ++ " up") = String.prefix " up" (String c r).
Proof.
  destruct r as [|b [|d r]]; cbn [append]; rewrite !prefix_cons;
    repeat (match goal with
            | |- context [ascii_dec ?x ?y] => destruct (ascii_dec x y); subst
            end);
    rewrite ?prefix_nil; try reflexivity; try discriminate.
Qed.

Lemma replace_trailing_up (r : string) :
  Text.occurs " up" r = false -> Str.replace " up" "" (r ++ " up") = r.
Proof.
  unfold Str.replace.
  induction r as [|c r IH]; intros H; [reflexivity|].
  apply occurs_cons in H as [Hp Ho].
  change (String c r ++ " up") with (String c (r ++ " up")).
  cbn [Str.replace_from].
  change (String c (r ++ " up")) with (String c r ++ " up").
  rewrite prefix_up_suffix, Hp. f_equal. auto.
Qed.

Lemma endswith_append (p q r : string) :
  Str.endswith p q = true -> Str.endswith p (r ++ q) = true.
Proof.
  intros H. induction r as [|c r IH]; cbn [append Str.endswith]; [exact H|].
  rewrite IH. apply orb_true_r.
Qed.

(** C2, as amended: for [device_options] of the form ["up " + rest] where
    [rest] holds no further ["up "], the options computed by the relocator
    are [rest]. *)
Theorem C2_leading_up (rest : string) :
  Text.occurs "up " rest = false ->
  relocated_options ("up " ++ rest) = rest.
Proof.
  intros H. unfold relocated_options. cbn. rewrite prefix_nil.
  apply replace_absent, H.
Qed.

(** C4, as amended: for [device_options] of the form [rest + " up"] that
    does not start with ["up"], where [rest] holds no further [" up"], the
    options computed by the relocator are [rest]. *)
Theorem C4_trailing_up (rest : string) :
  Str.startswith "up" (rest ++ " up") = false ->
  Text.occurs " up" rest = false ->
  relocated_options (rest ++ " up") = rest.
Proof.
  intros Hs Ho. unfold relocated_options.
  rewrite Hs, endswith_append by reflexivity.
  destruct (String.eqb_spec (rest ++ " up") "up") as [E|_].
  - rewrite E in Hs. discriminate.
  - cbn [negb]. apply replace_trailing_up, Ho.
Qed.


(** ** What a match of [RE_MTU] says about the string *)

Lemma is_decimal_word (c : ascii) :
  Char.is_decimal c = true -> Char.is_word c = true.
Proof. unfold Char.is_word, Char.is_alnum. intros ->. reflexivity. Qed.

Lemma word_boundary_eq (prev : option ascii) (s : string) :
  Re.word_boundary prev s
  = xorb (from_option Char.is_word false prev) (Text.starts_word s).
Proof. reflexivity. Qed.

Lemma literal_sound (p s r : string) : Re.literal p s = Some r -> s = p ++ r.
Proof.
  revert s. induction p as [|a p IH]; intros s H; cbn in H.
  - injection H as <-. reflexivity.
  - destruct s as [|b s]; [discriminate|].
    destruct (Ascii.eqb_spec a b) as [->|_]; [|discriminate].
    cbn. f_equal. auto.
Qed.

Lemma literal_complete (p r : string) : Re.literal p (p ++ r) = Some r.
Proof.
  induction p as [|a p IH]; cbn; [reflexivity|].
  rewrite Ascii.eqb_refl. exact IH.
Qed.

Lemma last_or_append (prev : option ascii) (a b : string) :
  Text.last_or prev (a ++ b) = Text.last_or (Text.last_or prev a) b.
Proof. revert prev. induction a as [|c a IH]; intros prev; cbn; auto. Qed.

Lemma dot_star_keeps (s : string) :
  Text.no_linebreak s = true -> Re.dot_star s = s.
Proof.
  induction s as [|c s IH]; cbn; [reflexivity|].
  destruct (Char.is_linebreak c); cbn; [discriminate|].
  intros H. f_equal. auto.
Qed.

Lemma dot_star_split (s : string) : exists tail, s = Re.dot_star s ++ tail.
Proof.
  induction s as [|c s [tail IH]]; cbn.
  - exists "". reflexivity.
  - destruct (Char.is_linebreak c).
    + exists (String c s). reflexivity.
    + exists tail. cbn. congruence.
Qed.

Lemma boundary_then_after_sound (prev : ascii) (s d a : string) :
  Char.is_word prev = true ->
  Re.boundary_then_after prev s = Some (d, a) ->
  d = "" /\ a = Re.dot_star s /\ Text.starts_word s = false.
Proof.
  unfold Re.boundary_then_after. rewrite word_boundary_eq. cbn.
  intros ->. destruct (Text.starts_word s); cbn; [discriminate|].
  intros [= <- <-]. auto.
Qed.

Lemma digits_then_sound (s : string) :
  forall prev d a,
    Char.is_word prev = true ->
    Re.digits_then prev s = Some (d, a) ->
    exists rest,
      s = d ++ rest /\ a = Re.dot_star rest
      /\ Text.all_decimal d = true /\ Text.starts_word rest = false.
Proof.
  induction s as [|c s IH]; intros prev d a Hw H; cbn in H.
  - apply boundary_then_after_sound in H as (-> & -> & Hs); [|exact Hw].
    exists "". auto.
  - destruct (Char.is_decimal c) eqn:Hc.
    + destruct (Re.digits_then c s) as [[d' a']|] eqn:Hd.
      * injection H as <- <-.
        apply IH in Hd as (rest & -> & -> & Hall & Hs);
          [|apply is_decimal_word, Hc].
        exists rest. cbn. rewrite Hc, Hall. auto.
      * apply boundary_then_after_sound in H as (-> & -> & Hs); [|exact Hw].
        exists (String c s). auto.
    + apply boundary_then_after_sound in H as (-> & -> & Hs); [|exact Hw].
      exists (String c s). auto.
Qed.

Lemma token_here_sound (prev : option ascii) (s d a : string) :
  Re.token_here prev s = Some (d, a) ->
  exists rest,
    s = "mtu " ++ d ++ rest /\ a = Re.dot_star rest
    /\ d <> "" /\ Text.all_decimal d = true
    /\ from_option Char.is_word false prev = false
    /\ Text.starts_word rest = false.
Proof.
  unfold Re.token_here. rewrite word_boundary_eq. intros H.
  destruct (xorb _ _) eqn:Hb; [|discriminate].
  destruct (Re.literal "mtu " s) as [[|c s']|] eqn:Hl; try discriminate.
  apply literal_sound in Hl. subst s.
  destruct (Char.is_decimal c) eqn:Hc; [|discriminate].
  destruct (Re.digits_then c s') as [[d' a']|] eqn:Hd; [|discriminate].
  injection H as <- <-.
  apply digits_then_sound in Hd as (rest & -> & -> & Hall & Hs);
    [|apply is_decimal_word, Hc].
  exists rest. cbn [Text.all_decimal]. rewrite Hc, Hall.
  assert (Hp : from_option Char.is_word false prev = false).
  { cbn in Hb. destruct (from_option Char.is_word false prev);
      [discriminate|reflexivity]. }
  repeat split; auto; discriminate.
Qed.

Lemma match_here_sound (s : string) :
  forall prev g,
    Re.match_here prev s = Some g ->
    exists rest,
      s = Re.before g ++ "mtu " ++ Re.mtu g ++ rest
      /\ Re.after g = Re.dot_star rest
      /\ Re.mtu g <> "" /\ Text.all_decimal (Re.mtu g) = true
      /\ Text.ends_word prev (Re.before g) = false
      /\ Text.starts_word rest = false
      /\ Text.no_linebreak (Re.before g) = true.
Proof.
  assert (Hstop : forall prev s g,
             match Re.token_here prev s with
             | Some (d, a) => Some (Re.Groups "" d a)
             | None => None
             end = Some g ->
             exists rest,
               s = Re.before g ++ "mtu " ++ Re.mtu g ++ rest
               /\ Re.after g = Re.dot_star rest
               /\ Re.mtu g <> "" /\ Text.all_decimal (Re.mtu g) = true
               /\ Text.ends_word prev (Re.before g) = false
               /\ Text.starts_word rest = false
               /\ Text.no_linebreak (Re.before g) = true).
  { intros prev s0 g H.
    destruct (Re.token_here prev s0) as [[d a]|] eqn:Ht; [|discriminate].
    injection H as <-. cbn.
    apply token_here_sound in Ht as (rest & -> & -> & Hne & Hall & Hp & Hs).
    exists rest. auto 10. }
  induction s as [|c s IH]; intros prev g H; cbn [Re.match_here] in H.
  - apply Hstop, H.
  - destruct (Char.is_linebreak c) eqn:Hc; [apply Hstop, H|].
    destruct (Re.match_here (Some c) s) as [g'|] eqn:Hm; [|apply Hstop, H].
    injection H as <-. cbn.
    apply IH in Hm as (rest & -> & Ha & Hne & Hall & Hp & Hs & Hl).
    exists rest. rewrite Hc, Hl. auto 10.
Qed.

Lemma search_from_sound (s : string) :
  forall prev g,
    Re.search_from prev s = Some g ->
    exists skipped rest,
      s = skipped ++ Re.before g ++ "mtu " ++ Re.mtu g ++ rest
      /\ Re.after g = Re.dot_star rest
      /\ Re.mtu g <> "" /\ Text.all_decimal (Re.mtu g) = true
      /\ Text.ends_word (Text.last_or prev skipped) (Re.before g) = false
      /\ Text.starts_word rest = false
      /\ Text.no_linebreak (Re.before g) = true.
Proof.
  induction s as [|c s IH]; intros prev g H; cbn [Re.search_from] in H.
  - destruct (Re.match_here prev "") as [g'|] eqn:Hm; [|discriminate].
    injection H as ->. apply match_here_sound in Hm as (rest & Hm).
    exists "", rest. exact Hm.
  - destruct (Re.match_here prev (String c s)) as [g'|] eqn:Hm.
    + injection H as ->. apply match_here_sound in Hm as (rest & Hm).
      exists "", rest. exact Hm.
    + apply IH in H as (skipped & rest & -> & H).
      exists (String c skipped), rest. split; [reflexivity|exact H].
Qed.

(** A match of [RE_MTU] shows a standalone token. *)
Lemma search_token (s : string) (g : Re.groups) :
  Re.RE_MTU_search s = Some g -> Text.mtu_token s.
Proof.
  intros H. apply search_from_sound in H
    as (skipped & rest & -> & _ & Hne & Hall & Hp & Hs & _).
  exists (skipped ++ Re.before g), (Re.mtu g), rest.
  unfold Text.token_split, Text.ends_word.
  rewrite append_assoc, last_or_append. auto.
Qed.

(** ** A standalone token is found by [RE_MTU] *)

Lemma starts_word_false_decimal (c : ascii) (s : string) :
  Text.starts_word (String c s) = false -> Char.is_decimal c = false.
Proof.
  cbn. intros H. destruct (Char.is_decimal c) eqn:Hc; [|reflexivity].
  apply is_decimal_word in Hc. congruence.
Qed.

Lemma boundary_then_after_complete (prev : ascii) (s : string) :
  Char.is_word prev = true ->
  Text.starts_word s = false ->
  Re.boundary_then_after prev s = Some ("", Re.dot_star s).
Proof.
  intros Hw Hs. unfold Re.boundary_then_after.
  rewrite word_boundary_eq, Hs. cbn. rewrite Hw. reflexivity.
Qed.

Lemma digits_then_complete (d : string) :
  forall prev post,
    Char.is_word prev = true ->
    Text.all_decimal d = true ->
    Text.starts_word post = false ->
    Re.digits_then prev (d ++ post) = Some (d, Re.dot_star post).
Proof.
  induction d as [|c d IH]; intros prev post Hw Hd Hs.
  - cbn [append]. destruct post as [|c post].
    + apply boundary_then_after_complete; assumption.
    + cbn [Re.digits_then].
      rewrite (starts_word_false_decimal _ _ Hs).
      apply boundary_then_after_complete; assumption.
  - cbn in Hd. apply andb_true_iff in Hd as [Hc Hd].
    cbn [append Re.digits_then]. rewrite Hc.
    rewrite IH; auto using is_decimal_word.
Qed.

Lemma token_here_complete (prev : option ascii) (n post : string) :
  n <> "" ->
  Text.all_decimal n = true ->
  from_option Char.is_word false prev = false ->
  Text.starts_word post = false ->
  Re.token_here prev ("mtu " ++ n ++ post) = Some (n, Re.dot_star post).
Proof.
  intros Hne Hd Hp Hs. destruct n as [|c n]; [contradiction|].
  cbn in Hd. apply andb_true_iff in Hd as [Hc Hd].
  unfold Re.token_here. rewrite word_boundary_eq, Hp, literal_complete.
  cbn [xorb Text.starts_word append].
  replace (Char.is_word "m") with true by reflexivity.
  rewrite Hc, digits_then_complete; auto using is_decimal_word.
Qed.

(** Where the rest of the pattern matches, the whole pattern does. *)
Lemma match_here_some (prev : option ascii) (s d a : string) :
  Re.token_here prev s = Some (d, a) -> Re.match_here prev s <> None.
Proof.
  intros H. destruct s as [|c s]; cbn [Re.match_here]; rewrite H.
  - discriminate.
  - destruct (Char.is_linebreak c); [discriminate|].
    destruct (Re.match_here (Some c) s); discriminate.
Qed.

Lemma search_from_complete (pre : string) :
  forall prev s n post,
    Text.token_split prev s pre n post -> Re.search_from prev s <> None.
Proof.
  induction pre as [|c pre IH]; intros prev s n post (-> & Hne & Hd & Hp & Hs).
  - assert (Hm := match_here_some prev _ _ _
                    (token_here_complete prev n post Hne Hd Hp Hs)).
    cbn [append] in *.
    destruct (Re.match_here prev _) eqn:E; [|contradiction].
    cbn [Re.search_from]. cbn [append] in E. rewrite E. discriminate.
  - cbn [append Re.search_from].
    destruct (Re.match_here prev _); [discriminate|].
    apply (IH (Some c) _ n post). repeat split; auto.
Qed.

(** [RE_MTU.search] finds a match exactly when the string holds a
    standalone token. *)
Lemma search_none_iff (s : string) :
  Re.RE_MTU_search s = None <-> ~ Text.mtu_token s.
Proof.
  split.
  - intros H (pre & n & post & Ht).
    exact (search_from_complete pre None s n post Ht H).
  - intros H. destruct (Re.RE_MTU_search s) as [g|] eqn:E; [|reflexivity].
    destruct H. exact (search_token s g E).
Qed.

(** ** The greedy group [before] stops at the last token of the line *)

Lemma all_decimal_append (a b : string) :
  Text.all_decimal (a ++ b) = Text.all_decimal a && Text.all_decimal b.
Proof.
  induction a as [|c a IH]; cbn; [reflexivity|].
  rewrite IH. apply andb_assoc.
Qed.

Lemma no_linebreak_append (a b : string) :
  Text.no_linebreak (a ++ b) = Text.no_linebreak a && Text.no_linebreak b.
Proof.
  induction a as [|c a IH]; cbn; [reflexivity|].
  rewrite IH. apply andb_assoc.
Qed.

(** Where a character of [x ++ y] sits: in [x], or in [y]. *)
Lemma split_at_char (x : string) :
  forall y a c z,
    x ++ y = a ++ String c z ->
    (exists a', a = x ++ a' /\ y = a' ++ String c z)
    \/ (exists x1 x2, x = x1 ++ String c x2).
Proof.
  induction x as [|d x IH]; intros y a c z H.
  - left. exists a. auto.
  - destruct a as [|e a]; cbn in H; injection H as -> H.
    + right. exists "", x. reflexivity.
    + apply IH in H as [(a' & -> & ->)|(x1 & x2 & ->)].
      * left. exists a'. auto.
      * right. exists (String e x1), x2. reflexivity.
Qed.

Lemma no_m_in_number (n x1 x2 : string) :
  Text.all_decimal n = true -> "tu " ++ n = x1 ++ String "m" x2 -> False.
Proof.
  intros Hd H.
  destruct x1 as [|c1 [|c2 [|c3 x1]]]; cbn in H; try discriminate.
  injection H as _ _ _ H. subst n.
  rewrite all_decimal_append in Hd. cbn in Hd.
  rewrite andb_false_r in Hd. discriminate.
Qed.

Lemma no_later_token (n post : string) :
  Text.all_decimal n = true ->
  Text.starts_word post = false ->
  ~ Text.mtu_token post ->
  ~ Text.token_behind (Some "m"%char) ("tu " ++ n ++ post).
Proof.
  intros Hd Hs Hno (a & n2 & b & Heq & Hne2 & Hd2 & He & Hs2).
  change ("tu " ++ n ++ post) with (String "t" (String "u" (String " " (n ++ post)))) in Heq.
  change (String "t" (String "u" (String " " (n ++ post))))
    with (("tu " ++ n) ++ post) in Heq.
  change (a ++ "mtu " ++ n2 ++ b) with (a ++ String "m" ("tu " ++ n2 ++ b)) in Heq.
  apply split_at_char in Heq as [(a' & -> & Hpost)|(x1 & x2 & Hx)].
  - destruct a' as [|c a'].
    + rewrite Hpost in Hs. discriminate.
    + apply Hno. exists (String c a'), n2, b.
      repeat split; auto.
      unfold Text.ends_word in *. rewrite last_or_append in He. exact He.
  - exact (no_m_in_number _ _ _ Hd Hx).
Qed.

Lemma match_here_cons (prev : option ascii) (c : ascii) (s : string) :
  Re.match_here prev (String c s)
  = if Char.is_linebreak c
    then match Re.token_here prev (String c s) with
         | Some (d, a) => Some (Re.Groups "" d a)
         | None => None
         end
    else match Re.match_here (Some c) s with
         | Some g => Some (Re.Groups (String c (Re.before g)) (Re.mtu g)
                                     (Re.after g))
         | None => match Re.token_here prev (String c s) with
                   | Some (d, a) => Some (Re.Groups "" d a)
                   | None => None
                   end
         end.
Proof. reflexivity. Qed.

Lemma match_here_last (pre : string) :
  forall prev n post,
    Text.no_linebreak (pre ++ "mtu " ++ n ++ post) = true ->
    n <> "" ->
    Text.all_decimal n = true ->
    Text.ends_word prev pre = false ->
    Text.starts_word post = false ->
    ~ Text.mtu_token post ->
    Re.match_here prev (pre ++ "mtu " ++ n ++ post)
    = Some (Re.Groups pre n post).
Proof.
  induction pre as [|c pre IH]; intros prev n post Hl Hne Hd He Hs Hno.
  - assert (Ht := token_here_complete prev n post Hne Hd He Hs).
    rewrite !no_linebreak_append in Hl.
    repeat (apply andb_true_iff in Hl as [_ Hl]).
    cbn [append] in *.
    rewrite match_here_cons, Ht.
    replace (Char.is_linebreak "m") with false by reflexivity.
    destruct (Re.match_here (Some "m"%char) _) as [g|] eqn:Hm.
    + exfalso. apply (no_later_token n post Hd Hs Hno).
      apply match_here_sound in Hm
        as (rest & Heq & _ & Hne' & Hd' & He' & Hs' & _).
      exists (Re.before g), (Re.mtu g), rest. repeat split; auto.
    + rewrite dot_star_keeps; [reflexivity|exact Hl].
  - change (String c pre ++ "mtu " ++ n ++ post)
      with (String c (pre ++ "mtu " ++ n ++ post)) in *.
    cbn [Text.no_linebreak] in Hl.
    apply andb_true_iff in Hl as [Hc Hl]. apply negb_true_iff in Hc.
    rewrite match_here_cons, Hc.
    rewrite (IH (Some c) n post); auto.
Qed.

(** ** What [re.sub] on runs of blanks keeps *)

Lemma decimal_not_space (c : ascii) :
  Char.is_decimal c = true -> Char.is_space c = false.
Proof.
  unfold Char.is_decimal, Char.is_space, Char.between.
  intros H. apply andb_true_iff in H as [H1 H2].
  apply N.leb_le in H1, H2.
  repeat match goal with
         | |- context [(?a <=? ?b)%N] => destruct (N.leb_spec a b)
         | |- context [(?a =? ?b)%N] => destruct (N.eqb_spec a b)
         end; cbn; try reflexivity; lia.
Qed.

Lemma sub_blanks_from_cons (f : bool) (c : ascii) (s : string) :
  Re.sub_blanks_from f (String c s)
  = if Char.is_space c then
      if f then Re.sub_blanks_from true s
      else
        match s with
        | String c' _ =>
            if Char.is_space c' then String " " (Re.sub_blanks_from true s)
            else String c (Re.sub_blanks_from false s)
        | EmptyString => String c EmptyString
        end
    else String c (Re.sub_blanks_from false s).
Proof. reflexivity. Qed.

Lemma sub_blanks_from_word (f : bool) (c : ascii) (s : string) :
  Char.is_space c = false ->
  Re.sub_blanks_from f (String c s) = String c (Re.sub_blanks_from false s).
Proof. intros H. rewrite sub_blanks_from_cons, H. reflexivity. Qed.

(** A character that is no blank is reached and copied, whatever comes
    before it. *)
Lemma sub_blanks_reaches (p : string) :
  forall f c y,
    Char.is_space c = false ->
    exists P,
      Re.sub_blanks_from f (p ++ String c y)
      = P ++ String c (Re.sub_blanks_from false y).
Proof.
  induction p as [|a p IH]; intros f c y Hc.
  - exists "". apply sub_blanks_from_word, Hc.
  - change (String a p ++ String c y) with (String a (p ++ String c y)).
    rewrite sub_blanks_from_cons.
    destruct (Char.is_space a).
    + destruct f; [apply IH, Hc|].
      destruct p as [|b p].
      * cbn [append]. rewrite Hc, (sub_blanks_from_word _ _ _ Hc).
        exists (String a ""). reflexivity.
      * change (String b p ++ String c y) with (String b (p ++ String c y)).
        cbv iota.
        change (String b (p ++ String c y)) with (String b p ++ String c y).
        destruct (Char.is_space b).
        -- destruct (IH true c y Hc) as [P ->]. exists (String " " P).
           reflexivity.
        -- destruct (IH false c y Hc) as [P ->]. exists (String a P).
           reflexivity.
    + destruct (IH false c y Hc) as [P ->]. exists (String a P). reflexivity.
Qed.

Lemma sub_blanks_number (n y : string) :
  Text.all_decimal n = true ->
  Re.sub_blanks_from false (n ++ y) = n ++ Re.sub_blanks_from false y.
Proof.
  induction n as [|c n IH]; intros H; [reflexivity|].
  cbn in H. apply andb_true_iff in H as [Hc H].
  cbn [append]. rewrite sub_blanks_from_word by (apply decimal_not_space, Hc).
  rewrite IH by exact H. reflexivity.
Qed.

(** The word [mtu], one space and a number pass through unchanged. *)
Lemma sub_blanks_token (n : string) :
  n <> "" ->
  Text.all_decimal n = true ->
  forall p f y,
    exists P,
      Re.sub_blanks_from f (p ++ "mtu " ++ n ++ y)
      = P ++ "mtu " ++ n ++ Re.sub_blanks_from false y.
Proof.
  intros Hne Hd p f y.
  destruct (sub_blanks_reaches p f "m" ("tu " ++ n ++ y) eq_refl) as [P HP].
  exists P.
  change (p ++ "mtu " ++ n ++ y) with (p ++ String "m" ("tu " ++ n ++ y)).
  rewrite HP. f_equal.
  destruct n as [|c n]; [contradiction|].
  assert (Hc : Char.is_space c = false).
  { cbn in Hd. apply andb_true_iff in Hd as [Hc _].
    apply decimal_not_space, Hc. }
  change ("tu " ++ String c n ++ y)
    with (String "t" (String "u" (String " " (String c (n ++ y))))).
  rewrite (sub_blanks_from_word _ "t") by reflexivity.
  rewrite (sub_blanks_from_word _ "u") by reflexivity.
  rewrite (sub_blanks_from_cons _ " ").
  replace (Char.is_space " ") with true by reflexivity.
  cbv iota. rewrite Hc.
  change (String c (n ++ y)) with (String c n ++ y).
  rewrite sub_blanks_number by exact Hd.
  reflexivity.
Qed.

Lemma search_from_here (prev : option ascii) (s : string) (g : Re.groups) :
  Re.match_here prev s = Some g -> Re.search_from prev s = Some g.
Proof. intros H. destruct s; cbn [Re.search_from]; rewrite H; reflexivity. Qed.

Lemma no_token_empty : ~ Text.mtu_token "".
Proof. intros (pre & n & post & H & _). destruct pre; discriminate. Qed.

(** ** Counting the places where [mtu] is written *)

Lemma count_cons (p : string) (c : ascii) (s : string) :
  Text.count p (String c s)
  = ((if String.prefix p (String c s) then 1 else 0) + Text.count p s)%nat.
Proof. reflexivity. Qed.

Lemma prefix_append (x : string) :
  forall p b, String.prefix p x = true -> String.prefix p (x ++ b) = true.
Proof.
  induction x as [|c x IH]; intros p b H.
  - destruct p; [apply prefix_nil|discriminate].
  - cbn [append]. rewrite prefix_cons in *.
    destruct p as [|a p]; [reflexivity|].
    destruct (ascii_dec a c); [auto|discriminate].
Qed.

Lemma count_append_r (p a b : string) :
  (Text.count p b <= Text.count p (a ++ b))%nat.
Proof.
  induction a as [|c a IH]; cbn [append]; [lia|].
  rewrite count_cons. lia.
Qed.

Lemma count_append (x : ascii) (p a b : string) :
  (Text.count (String x p) a + Text.count (String x p) b
   <= Text.count (String x p) (a ++ b))%nat.
Proof.
  induction a as [|c a IH]; cbn [append].
  - cbn. lia.
  - rewrite !count_cons.
    destruct (String.prefix (String x p) (String c a)) eqn:E.
    + change (String c (a ++ b)) with (String c a ++ b).
      rewrite (prefix_append _ _ b E). lia.
    + lia.
Qed.

Lemma count_zero_cons (p : string) (c : ascii) (s : string) :
  Text.count p (String c s) = O ->
  String.prefix p (String c s) = false /\ Text.count p s = O.
Proof.
  rewrite count_cons.
  destruct (String.prefix p (String c s)); [discriminate|]. auto.
Qed.

(** Joining two strings that do not hold [mtu] writes none, when the second
    does not begin with a word character. *)
Lemma count_join (a b : string) :
  Text.count "mtu" a = O ->
  Text.count "mtu" b = O ->
  Text.starts_word b = false ->
  Text.count "mtu" (a ++ b) = O.
Proof.
  intros Ha Hb Hs. induction a as [|c a IH]; [exact Hb|].
  apply count_zero_cons in Ha as [Hp Ha].
  cbn [append]. rewrite count_cons, (IH Ha).
  replace (String.prefix "mtu" (String c (a ++ b))) with false; [reflexivity|].
  symmetry.
  destruct a as [|c2 [|c3 a]]; cbn [append]; rewrite ?prefix_cons in *.
  - destruct (ascii_dec "m" c); [|reflexivity].
    destruct b as [|d b]; [reflexivity|]. rewrite prefix_cons.
    destruct (ascii_dec "t" d); [subst; discriminate|reflexivity].
  - destruct (ascii_dec "m" c); [|reflexivity].
    destruct (ascii_dec "t" c2); [|reflexivity].
    destruct b as [|d b]; [reflexivity|]. rewrite prefix_cons.
    destruct (ascii_dec "u" d); [subst; discriminate|reflexivity].
  - destruct (ascii_dec "m" c); [|reflexivity].
    destruct (ascii_dec "t" c2); [|reflexivity].
    destruct (ascii_dec "u" c3); [|reflexivity].
    rewrite prefix_nil in Hp. discriminate.
Qed.

(** A word at the head of the result of [re.sub] was at the head of its
    argument. *)
Lemma prefix_sub_blanks (q : string) :
  forall s,
    Text.no_blank q = true ->
    String.prefix q (Re.sub_blanks_from false s) = true ->
    String.prefix q s = true.
Proof.
  induction q as [|a q IH]; intros s Hq H; [apply prefix_nil|].
  cbn in Hq. apply andb_true_iff in Hq as [Ha Hq]. apply negb_true_iff in Ha.
  destruct s as [|c s]; [discriminate|].
  rewrite sub_blanks_from_cons in H. rewrite prefix_cons.
  destruct (Char.is_space c) eqn:Hc.
  - exfalso. destruct s as [|c' s].
    + rewrite prefix_cons in H.
      destruct (ascii_dec a c); [congruence|discriminate].
    + destruct (Char.is_space c'); rewrite prefix_cons in H.
      * destruct (ascii_dec a " "); [subst; discriminate|discriminate].
      * destruct (ascii_dec a c); [congruence|discriminate].
  - rewrite prefix_cons in H.
    destruct (ascii_dec a c); [auto|discriminate].
Qed.

Lemma count_sub_blanks (s : string) :
  forall f,
    Text.count "mtu" s = O ->
    Text.count "mtu" (Re.sub_blanks_from f s) = O.
Proof.
  induction s as [|c s IH]; intros f H; [exact H|].
  apply count_zero_cons in H as [Hp H].
  rewrite sub_blanks_from_cons.
  destruct (Char.is_space c) eqn:Hc.
  - assert (Hm : forall x, String.prefix "mtu" (String c x) = false).
    { intros x. rewrite prefix_cons.
      destruct (ascii_dec "m" c); [subst; discriminate|reflexivity]. }
    destruct f; [auto|].
    destruct s as [|c' s']; [rewrite count_cons, Hm; reflexivity|].
    destruct (Char.is_space c'); rewrite count_cons.
    + rewrite (IH true H). reflexivity.
    + rewrite Hm, (IH false H). reflexivity.
  - rewrite count_cons, (IH false H).
    rewrite <- (sub_blanks_from_word false c s Hc).
    destruct (String.prefix "mtu" (Re.sub_blanks_from false (String c s))) eqn:E;
      [|reflexivity].
    apply prefix_sub_blanks in E; [congruence|reflexivity].
Qed.

Lemma token_count (s : string) :
  Text.mtu_token s -> (1 <= Text.count "mtu" s)%nat.
Proof.
  intros (pre & n & post & -> & _).
  pose proof (count_append_r "mtu" pre ("mtu " ++ n ++ post)) as H.
  change ("mtu " ++ n ++ post) with (String "m" ("tu " ++ n ++ post)) in H.
  rewrite count_cons in H.
  replace (String.prefix "mtu" (String "m" ("tu " ++ n ++ post))) with true in H
    by reflexivity.
  exact (Nat.le_trans _ _ _ (Nat.le_add_r 1 _) H).
Qed.

Lemma starts_word_dot_star (s : string) :
  Text.starts_word s = false -> Text.starts_word (Re.dot_star s) = false.
Proof.
  destruct s as [|c s]; cbn; [reflexivity|].
  destruct (Char.is_linebreak c); auto.
Qed.

(** ** No run of blanks is left by [re.sub] *)

Lemma no_blank_run_cons (c : ascii) (s : string) :
  Text.no_blank_run (String c s)
  = negb (Char.is_space c && Text.starts_blank s) && Text.no_blank_run s.
Proof. destruct s; cbn; [rewrite andb_false_r|]; reflexivity. Qed.

Lemma sub_blanks_in_run_head (s : string) :
  Text.starts_blank (Re.sub_blanks_from true s) = false.
Proof.
  induction s as [|c s IH]; [reflexivity|].
  rewrite sub_blanks_from_cons.
  destruct (Char.is_space c) eqn:Hc; [exact IH|]. cbn. exact Hc.
Qed.

Lemma sub_blanks_no_run (s : string) :
  forall f, Text.no_blank_run (Re.sub_blanks_from f s) = true.
Proof.
  induction s as [|c s IH]; intros f; [reflexivity|].
  rewrite sub_blanks_from_cons.
  destruct (Char.is_space c) eqn:Hc.
  - destruct f; [apply IH|].
    destruct s as [|c' s]; [reflexivity|].
    destruct (Char.is_space c') eqn:Hc'; rewrite no_blank_run_cons, IH.
    + rewrite sub_blanks_in_run_head, andb_false_r. reflexivity.
    + rewrite (sub_blanks_from_word _ _ _ Hc'). cbn. rewrite Hc'.
      rewrite andb_false_r. reflexivity.
  - rewrite no_blank_run_cons, IH, Hc. reflexivity.
Qed.

(** ** The first loop of [move_mtu_from_options] *)

Section Extractor.

Context {Rest : Type}.
Implicit Types (tbl : list (Interfaces Rest)) (i : Interfaces Rest).

Lemma extract_step_insert tbl k i :
  extract_step tbl (k, i) = <[k := extracted i]> tbl \/
  (extract_step tbl (k, i) = tbl /\ extracted i = i).
Proof.
  unfold extract_step, extracted. cbn.
  destruct (extract_mtu i); cbn; auto.
Qed.

Lemma extract_loop (l done : list (Interfaces Rest)) :
  foldl extract_step (done ++ l)%list
        (imap (fun j x => (length done + j, x)%nat) l)
  = (done ++ map extracted l)%list.
Proof.
  revert done. induction l as [|x l IH]; intros done; [reflexivity|].
  cbn [imap foldl map].
  assert (Hstep : extract_step (done ++ x :: l)%list (length done + 0, x)%nat
                  = (done ++ extracted x :: l)%list).
  { destruct (extract_step_insert (done ++ x :: l)%list
                                  (length done + 0)%nat x) as [->|[-> ->]];
      [|reflexivity].
    rewrite insert_app_r_alt by lia.
    replace (length done + 0 - length done)%nat with O by lia.
    reflexivity. }
  rewrite Hstep.
  rewrite (imap_ext _ (fun j y => (length (done ++ [extracted x])%list + j, y)%nat)).
  - rewrite (cons_middle (extracted x)), app_assoc, IH, <- app_assoc.
    reflexivity.
  - intros j y _. cbn. rewrite length_app. cbn. f_equal. lia.
Qed.

(** The loop saves each row under its own key: it works row by row. *)
Lemma extract_all_map tbl : extract_all tbl = map extracted tbl.
Proof. exact (extract_loop tbl []). Qed.

Lemma extract_all_lookup tbl k i :
  tbl !! k = Some i -> extract_all tbl !! k = Some (extracted i).
Proof.
  intros H. rewrite extract_all_map, list_lookup_fmap, H. reflexivity.
Qed.

(** C5: a row whose non-empty options match [RE_MTU] gets the number of
    the group [mtu] as its [int_mtu], and the groups [before] and [after]
    put together, runs of blanks replaced by one space, as its
    [int_options], in which no two blanks are neighbours; for
    ["foo mtu 9000 bar"] that is [9000] and ["foo bar"]. *)
Theorem C5_extract_mtu tbl k i reg :
  tbl !! k = Some i ->
  int_options i <> "" ->
  Re.RE_MTU_search (int_options i) = Some reg ->
  extract_all tbl !! k
  = Some (mkInterfaces (int_interface i) (int_name i)
            (Re.sub_blanks (Re.before reg ++ Re.after reg))
            (Some (Str.int (Re.mtu reg))) (int_rest i))
  /\ Text.no_blank_run (Re.sub_blanks (Re.before reg ++ Re.after reg)) = true
  /\ (int_options i = "foo mtu 9000 bar" ->
      extract_all tbl !! k
      = Some (mkInterfaces (int_interface i) (int_name i)
                           "foo bar" (Some 9000) (int_rest i))).
Proof.
  intros Hk Hne Hs.
  assert (He : extracted i
               = mkInterfaces (int_interface i) (int_name i)
                   (Re.sub_blanks (Re.before reg ++ Re.after reg))
                   (Some (Str.int (Re.mtu reg))) (int_rest i)).
  { unfold extracted, extract_mtu. rewrite Hs.
    destruct (int_options i); [contradiction|reflexivity]. }
  rewrite (extract_all_lookup _ _ _ Hk), He. split; [reflexivity|].
  split; [apply sub_blanks_no_run|].
  intros Ho. rewrite Ho in Hs. injection Hs as <-. reflexivity.
Qed.

(** C8: a row whose options hold no standalone [mtu <N>] token, the empty
    options among them, is skipped by the loop body and stands unchanged
    in the table after the loop. *)
Theorem C8_no_token_unchanged tbl k i :
  tbl !! k = Some i ->
  ~ Text.mtu_token (int_options i) ->
  extract_mtu i = None /\ extract_all tbl !! k = Some i.
Proof.
  intros Hk Hno.
  assert (He : extract_mtu i = None).
  { unfold extract_mtu.
    destruct (negb (Str.truthy (int_options i))); [reflexivity|].
    destruct (Re.RE_MTU_search (int_options i)) as [g|] eqn:Hs;
      [|reflexivity].
    destruct Hno. exact (search_token _ _ Hs). }
  split; [exact He|].
  rewrite (extract_all_lookup _ _ _ Hk). unfold extracted. rewrite He.
  reflexivity.
Qed.

(** C9, as amended: when the options are one line, the row gets the number
    of the last standalone token as its [int_mtu], the group [before] takes
    all that comes before that token, and every [mtu <N>] in it is still
    there, as it was, in the new options. *)
Theorem C9_last_token tbl k i pre n post :
  tbl !! k = Some i ->
  Text.no_linebreak (int_options i) = true ->
  Text.token_split None (int_options i) pre n post ->
  ~ Text.mtu_token post ->
  extract_all tbl !! k
  = Some (mkInterfaces (int_interface i) (int_name i)
                       (Re.sub_blanks (pre ++ post))
                       (Some (Str.int n)) (int_rest i))
  /\ forall p1 n1 p2,
      pre = p1 ++ "mtu " ++ n1 ++ p2 ->
      n1 <> "" ->
      Text.all_decimal n1 = true ->
      exists P Q, Re.sub_blanks (pre ++ post) = P ++ "mtu " ++ n1 ++ Q.
Proof.
  intros Hk Hl (Heq & Hne & Hd & He & Hs) Hno. split.
  - rewrite (extract_all_lookup _ _ _ Hk). f_equal.
    unfold extracted, extract_mtu.
    rewrite Heq in Hl |- *.
    unfold Re.RE_MTU_search.
    rewrite (search_from_here _ _ _
               (match_here_last pre None n post Hl Hne Hd He Hs Hno)).
    destruct pre; reflexivity.
  - intros p1 n1 p2 -> Hne1 Hd1.
    rewrite !append_assoc.
    destruct (sub_blanks_token n1 Hne1 Hd1 p1 false (p2 ++ post)) as [P HP].
    exists P, (Re.sub_blanks_from false (p2 ++ post)). exact HP.
Qed.

(** Where [mtu] is written at most once, the row is clean after the loop
    body. *)
Lemma extracted_no_token i :
  (Text.count "mtu" (int_options i) <= 1)%nat ->
  ~ Text.mtu_token (int_options (extracted i)).
Proof.
  intros Hc. unfold extracted, extract_mtu.
  destruct (Str.truthy (int_options i)) eqn:Ht; cbn [negb].
  2:{ cbn. destruct (int_options i); [apply no_token_empty|discriminate]. }
  destruct (Re.RE_MTU_search (int_options i)) as [g|] eqn:Hs; cbn.
  2:{ apply search_none_iff, Hs. }
  intros Htok. apply token_count in Htok.
  apply search_from_sound in Hs
    as (skipped & rest & Heq & Ha & _ & _ & _ & Hsw & _).
  rewrite Heq in Hc.
  pose proof (count_append "m" "tu" skipped
                (Re.before g ++ "mtu " ++ Re.mtu g ++ rest)) as H1.
  pose proof (count_append "m" "tu" (Re.before g)
                ("mtu " ++ Re.mtu g ++ rest)) as H2.
  change ("mtu " ++ Re.mtu g ++ rest)
    with (String "m" ("tu " ++ Re.mtu g ++ rest)) in H2.
  rewrite count_cons in H2.
  replace (String.prefix "mtu" (String "m" ("tu " ++ Re.mtu g ++ rest)))
    with true in H2 by reflexivity.
  change (String "m" ("tu " ++ Re.mtu g ++ rest))
    with ("mtu " ++ Re.mtu g ++ rest) in H2.
  pose proof (count_append_r "mtu" "tu " (Re.mtu g ++ rest)) as H3.
  pose proof (count_append_r "mtu" (Re.mtu g) rest) as H4.
  destruct (dot_star_split rest) as [tail Hrest].
  pose proof (count_append "m" "tu" (Re.dot_star rest) tail) as H5.
  rewrite <- Hrest in H5.
  assert (Hb : Text.count "mtu" (Re.before g) = O) by lia.
  assert (Haf : Text.count "mtu" (Re.after g) = O) by (rewrite Ha; lia).
  assert (Hj := count_join _ _ Hb Haf).
  rewrite Ha in Hj at 1. specialize (Hj (starts_word_dot_star _ Hsw)).
  apply (count_sub_blanks _ false) in Hj.
  unfold Re.sub_blanks in Htok. lia.
Qed.

End Extractor.

(** ** The loop over the members of a LAGG *)

Section Consolidator.

Context {Rest : Type}.
Implicit Types (tbl : list (Interfaces Rest)) (i : Interfaces Rest).
Implicit Types (m : LAGGInterfaceMembers) (low : option N).

Lemma filter_lookup nic tbl k i :
  filter_int_interface nic tbl = Some (k, i) ->
  tbl !! k = Some i /\ int_interface i = nic.
Proof.
  revert k. induction tbl as [|r tbl IH]; intros k H; cbn in H; [discriminate|].
  destruct (String.eqb_spec (int_interface r) nic) as [E|_].
  - injection H as <- <-. auto.
  - destruct (filter_int_interface nic tbl) as [[j x]|]; [|discriminate].
    injection H as <- <-. apply (IH j). reflexivity.
Qed.

(** Saving a row under its own name does not move what [filter] finds. *)
Lemma filter_insert nic tbl k r r' :
  tbl !! k = Some r ->
  int_interface r' = int_interface r ->
  filter_int_interface nic (<[k := r']> tbl)
  = match filter_int_interface nic tbl with
    | Some (j, x) => Some (j, if decide (j = k) then r' else x)
    | None => None
    end.
Proof.
  revert k. induction tbl as [|y tbl IH]; intros k Hk Hn; [discriminate|].
  destruct k as [|k]; cbn in Hk.
  - injection Hk as ->.
    change (<[O := r']> (r :: tbl)) with (r' :: tbl).
    cbn [filter_int_interface]. rewrite Hn.
    destruct (String.eqb (int_interface r) nic); [reflexivity|].
    destruct (filter_int_interface nic tbl) as [[j x]|]; reflexivity.
  - change (<[S k := r']> (y :: tbl)) with (y :: <[k := r']> tbl).
    cbn [filter_int_interface].
    destruct (String.eqb (int_interface y) nic); [reflexivity|].
    rewrite (IH k Hk Hn).
    destruct (filter_int_interface nic tbl) as [[j x]|]; [|reflexivity].
    destruct (decide (j = k)), (decide (S j = S k)); try lia; reflexivity.
Qed.

Lemma consolidate_members_cons tbl low m members :
  consolidate_members tbl low (m :: members)
  = consolidate_members (fst (consolidate_member (tbl, low) m))
                        (snd (consolidate_member (tbl, low) m)) members.
Proof.
  unfold consolidate_members. cbn [foldl].
  destruct (consolidate_member (tbl, low) m). reflexivity.
Qed.

(** One turn of the loop: nothing, or one row cleared and its number taken. *)
Lemma consolidate_member_cases tbl low m :
  (member_mtu tbl m = None /\ consolidate_member (tbl, low) m = (tbl, low))
  \/ exists k i v,
      filter_int_interface (lagg_physnic m) tbl = Some (k, i)
      /\ int_mtu i = Some v /\ v <> 0
      /\ member_mtu tbl m = Some v
      /\ fst (consolidate_member (tbl, low) m) = <[k := set_int_mtu None i]> tbl
      /\ (low = None \/ (exists l, low = Some l /\ l <> 0) ->
          snd (consolidate_member (tbl, low) m) = lower low v).
Proof.
  unfold member_mtu, consolidate_member. cbn [fst snd].
  destruct (filter_int_interface (lagg_physnic m) tbl) as [[k i]|] eqn:Hf;
    [|left; auto].
  destruct (mtu_truthy (int_mtu i)) eqn:Ht; [|left; auto].
  right. destruct (int_mtu i) as [v|] eqn:Hv; [|discriminate].
  cbn in Ht. apply negb_true_iff, N.eqb_neq in Ht.
  exists k, i, v. repeat split; auto.
  intros [->|(l & -> & Hl)]; cbn; [reflexivity|].
  apply N.eqb_neq in Hl. rewrite Hl. cbn.
  destruct (N.ltb_spec v l); f_equal; lia.
Qed.

Lemma lower_ok low v :
  v <> 0 ->
  low = None \/ (exists l, low = Some l /\ l <> 0) ->
  exists a, lower low v = Some a /\ a <> 0 /\ a <= v.
Proof.
  intros Hv [->|(l & -> & Hl)]; cbn.
  - exists v. repeat split; auto; lia.
  - exists (N.min l v). repeat split; lia.
Qed.

Lemma truthy_some i v : int_mtu i = Some v -> v <> 0 -> mtu_truthy (int_mtu i) = true.
Proof.
  intros -> Hv. cbn. apply negb_true_iff, N.eqb_neq, Hv.
Qed.

(** A row whose [int_mtu] is null or zero is never written. *)
Lemma consolidate_members_keeps members :
  forall tbl low j r,
    tbl !! j = Some r ->
    mtu_truthy (int_mtu r) = false ->
    fst (consolidate_members tbl low members) !! j = Some r.
Proof.
  induction members as [|m members IH]; intros tbl low j r Hj Hr; [exact Hj|].
  rewrite consolidate_members_cons.
  destruct (consolidate_member_cases tbl low m)
    as [[_ ->]|(k & i & v & Hf & Hv & Hne & _ & -> & _)].
  - apply IH; assumption.
  - apply IH; [|assumption].
    apply filter_lookup in Hf as [Hk _].
    rewrite list_lookup_insert_ne; [exact Hj|].
    intros ->. rewrite Hj in Hk. injection Hk as ->.
    rewrite (truthy_some _ _ Hv Hne) in Hr. discriminate.
Qed.

(** The loop writes [int_mtu] and nothing else. *)
Lemma consolidate_members_frame members :
  forall tbl low,
    set_int_mtu None <$> fst (consolidate_members tbl low members)
    = set_int_mtu None <$> tbl.
Proof.
  induction members as [|m members IH]; intros tbl low; [reflexivity|].
  rewrite consolidate_members_cons.
  destruct (consolidate_member_cases tbl low m)
    as [[_ ->]|(k & i & v & Hf & _ & _ & _ & Hfst & _)].
  - apply IH.
  - rewrite IH, Hfst, list_fmap_insert.
    apply list_insert_id. rewrite list_lookup_fmap.
    apply filter_lookup in Hf as [-> _]. reflexivity.
Qed.

Lemma member_mtu_insert tbl k i v m :
  tbl !! k = Some i ->
  int_mtu i = Some v ->
  v <> 0 ->
  member_mtu (<[k := set_int_mtu None i]> tbl) m = member_mtu tbl m
  \/ (member_mtu (<[k := set_int_mtu None i]> tbl) m = None
      /\ member_mtu tbl m = Some v).
Proof.
  intros Hk Hv Hne. unfold member_mtu.
  rewrite (filter_insert _ _ _ i) by (assumption || reflexivity).
  destruct (filter_int_interface (lagg_physnic m) tbl) as [[j x]|] eqn:Hf;
    [|left; reflexivity].
  destruct (decide (j = k)) as [->|_]; [|left; reflexivity].
  right. apply filter_lookup in Hf as [Hx _].
  rewrite Hk in Hx. injection Hx as <-.
  rewrite (truthy_some _ _ Hv Hne). auto.
Qed.

Lemma lowest_of_cleared tbl k i v members :
  tbl !! k = Some i ->
  int_mtu i = Some v ->
  v <> 0 ->
  forall a,
    a <= v ->
    lowest_of (Some a) (member_mtus (<[k := set_int_mtu None i]> tbl) members)
    = lowest_of (Some a) (member_mtus tbl members).
Proof.
  intros Hk Hv Hne.
  induction members as [|m members IH]; intros a Ha; [reflexivity|].
  unfold member_mtus in *. cbn [omap list_omap].
  destruct (member_mtu_insert tbl k i v m Hk Hv Hne) as [->|[-> ->]].
  - destruct (member_mtu tbl m) as [w|]; [|apply IH, Ha].
    cbn. apply IH. lia.
  - cbn. replace (N.min a v) with a by lia. apply IH, Ha.
Qed.

(** The local [lowest_mtu] after the loop: the least of what the members
    bring. *)
Lemma consolidate_members_lowest members :
  forall tbl low,
    low = None \/ (exists l, low = Some l /\ l <> 0) ->
    snd (consolidate_members tbl low members)
    = lowest_of low (member_mtus tbl members).
Proof.
  induction members as [|m members IH]; intros tbl low Hlow; [reflexivity|].
  rewrite consolidate_members_cons.
  destruct (consolidate_member_cases tbl low m)
    as [[Hm ->]|(k & i & v & Hf & Hv & Hne & Hm & -> & Hsnd)].
  - cbn [fst snd]. rewrite (IH _ _ Hlow).
    unfold member_mtus. cbn [omap list_omap]. rewrite Hm. reflexivity.
  - rewrite (Hsnd Hlow).
    destruct (lower_ok low v Hne Hlow) as (a & Ha & Hane & Hav).
    rewrite IH by (right; exists a; auto).
    unfold member_mtus at 2. cbn [omap list_omap]. rewrite Hm.
    change (lowest_of low (v :: omap (member_mtu tbl) members))
      with (lowest_of (lower low v) (member_mtus tbl members)).
    rewrite Ha. apply filter_lookup in Hf as [Hk _].
    apply (lowest_of_cleared tbl k i v members Hk Hv Hne a Hav).
Qed.

Lemma lowest_of_some (l : list N) :
  forall a,
    lowest_of (Some a) l
    = Some (match Text.minimum l with Some b => N.min a b | None => a end).
Proof.
  induction l as [|w l IH]; intros a; [reflexivity|].
  change (lowest_of (Some a) (w :: l)) with (lowest_of (Some (N.min a w)) l).
  rewrite IH. cbn. destruct (Text.minimum l); f_equal; lia.
Qed.

Lemma lowest_of_minimum (l : list N) : lowest_of None l = Text.minimum l.
Proof.
  destruct l as [|w l]; [reflexivity|].
  change (lowest_of None (w :: l)) with (lowest_of (Some w) l).
  rewrite lowest_of_some. cbn. destruct (Text.minimum l); reflexivity.
Qed.

(** Every row that brought a number is null after the loop. *)
Lemma consolidate_members_cleared members :
  forall tbl low m k i,
    m ∈ members ->
    filter_int_interface (lagg_physnic m) tbl = Some (k, i) ->
    mtu_truthy (int_mtu i) = true ->
    int_mtu <$> fst (consolidate_members tbl low members) !! k = Some None.
Proof.
  induction members as [|m0 members IH]; intros tbl low m k i Hin Hf Ht.
  - apply elem_of_nil in Hin. contradiction.
  - rewrite consolidate_members_cons.
    destruct (consolidate_member_cases tbl low m0)
      as [[Hm0 ->]|(k0 & i0 & v & Hf0 & Hv & Hne & _ & -> & _)].
    + apply elem_of_cons in Hin as [->|Hin].
      * unfold member_mtu in Hm0. rewrite Hf, Ht in Hm0.
        destruct (int_mtu i); discriminate.
      * apply (IH _ _ m k i); assumption.
    + destruct (filter_lookup _ _ _ _ Hf0) as [Hk0 _].
      destruct (decide (k = k0)) as [->|Hk].
      * rewrite (consolidate_members_keeps members _ _ k0
                   (set_int_mtu None i0)); [reflexivity| |reflexivity].
        apply list_lookup_insert_eq. exact (lookup_lt_Some _ _ _ Hk0).
      * assert (Hf' : filter_int_interface (lagg_physnic m)
                        (<[k0 := set_int_mtu None i0]> tbl) = Some (k, i)).
        { rewrite (filter_insert _ _ _ i0) by (assumption || reflexivity).
          rewrite Hf. destruct (decide (k = k0)); [contradiction|reflexivity]. }
        apply elem_of_cons in Hin as [->|Hin].
        -- rewrite Hf in Hf0. injection Hf0 as -> _. contradiction.
        -- apply (IH _ _ m k i); assumption.
Qed.

Lemma consolidate_members_idle members :
  forall tbl low,
    member_mtus tbl members = [] ->
    consolidate_members tbl low members = (tbl, low).
Proof.
  induction members as [|m members IH]; intros tbl low H; [reflexivity|].
  rewrite consolidate_members_cons.
  unfold member_mtus in H. cbn [omap list_omap] in H.
  destruct (consolidate_member_cases tbl low m)
    as [[Hm ->]|(k & i & v & _ & _ & _ & Hm & _)];
    rewrite Hm in H; [|discriminate].
  apply IH, H.
Qed.

Lemma minimum_none (l : list N) : Text.minimum l = None -> l = [].
Proof. destruct l as [|x l]; cbn; [|destruct (Text.minimum l)]; congruence. Qed.

Lemma minimum_elem (l : list N) (v : N) : Text.minimum l = Some v -> v ∈ l.
Proof.
  revert v. induction l as [|x l IH]; intros v H; cbn in H; [discriminate|].
  destruct (Text.minimum l) as [b|]; injection H as <-.
  - destruct (N.min_spec x b) as [[_ ->]|[_ ->]].
    + apply elem_of_cons. auto.
    + apply elem_of_cons. right. apply IH. reflexivity.
  - apply elem_of_cons. auto.
Qed.

Lemma member_mtus_nonzero tbl members v :
  v ∈ member_mtus tbl members -> v <> 0.
Proof.
  unfold member_mtus. intros H.
  apply list_elem_of_omap in H as (m & _ & H).
  unfold member_mtu in H.
  destruct (filter_int_interface (lagg_physnic m) tbl) as [[k i]|];
    [|discriminate].
  destruct (mtu_truthy (int_mtu i)) eqn:Ht; [|discriminate].
  rewrite H in Ht. cbn in Ht. apply negb_true_iff, N.eqb_neq in Ht. exact Ht.
Qed.

(** C6, as amended: consolidating one LAGG sets the [int_mtu] of its parent
    row to the least of the numbers its members bring (for each member, the
    [int_mtu] of the first row of its NIC, when neither null nor zero), and
    leaves null every such row other than the parent's; when no member
    brings a number, nothing is written. *)
Theorem C6_consolidate_lagg (db : apps Rest) (pk : nat) (lagg : LAGGInterface) :
  (Text.minimum
     (member_mtus (interfaces db) (lagginterfacemembers_set db pk)) = None ->
   consolidate_lagg db (pk, lagg) = Some db)
  /\ (forall v parent,
        Text.minimum
          (member_mtus (interfaces db) (lagginterfacemembers_set db pk))
        = Some v ->
        interfaces db !! lagg_interface lagg = Some parent ->
        exists db',
          consolidate_lagg db (pk, lagg) = Some db'
          /\ int_mtu <$> interfaces db' !! lagg_interface lagg = Some (Some v)
          /\ forall m k i,
              m ∈ lagginterfacemembers_set db pk ->
              filter_int_interface (lagg_physnic m) (interfaces db)
              = Some (k, i) ->
              mtu_truthy (int_mtu i) = true ->
              k <> lagg_interface lagg ->
              int_mtu <$> interfaces db' !! k = Some None).
Proof.
  unfold consolidate_lagg. cbn [fst snd].
  change (foldl consolidate_member (interfaces db, None)
                (lagginterfacemembers_set db pk))
    with (consolidate_members (interfaces db) None
                              (lagginterfacemembers_set db pk)).
  set (members := lagginterfacemembers_set db pk).
  rewrite (consolidate_members_lowest members (interfaces db) None)
    by (left; reflexivity).
  rewrite lowest_of_minimum. split.
  - intros H. rewrite H. cbn.
    rewrite consolidate_members_idle by (apply minimum_none, H).
    destruct db; reflexivity.
  - intros v parent H Hp. rewrite H.
    assert (Hv : v <> 0).
    { apply (member_mtus_nonzero (interfaces db) members).
      apply minimum_elem, H. }
    replace (mtu_truthy (Some v)) with true
      by (symmetry; cbn; apply negb_true_iff, N.eqb_neq, Hv).
    pose proof (consolidate_members_frame members (interfaces db) None) as Hfr.
    set (tbl' := fst (consolidate_members (interfaces db) None members)) in *.
    assert (Hp' : exists parent', tbl' !! lagg_interface lagg = Some parent').
    { apply (f_equal (fun l => l !! lagg_interface lagg)) in Hfr.
      rewrite !list_lookup_fmap, Hp in Hfr.
      destruct (tbl' !! lagg_interface lagg) as [x|]; [eauto|discriminate]. }
    destruct Hp' as [parent' Hp']. rewrite Hp'. cbn.
    eexists. split; [reflexivity|]. cbn. split.
    + rewrite list_lookup_insert_eq by exact (lookup_lt_Some _ _ _ Hp').
      reflexivity.
    + intros m k i Hin Hf Ht Hk.
      rewrite list_lookup_insert_ne by auto.
      apply (consolidate_members_cleared members _ _ m k i); assumption.
Qed.

End Consolidator.

(** ** The rows after the whole migration *)

Section Migrated.

Context {Rest : Type} (default_rest : Rest).
Implicit Types (db : apps Rest) (i : Interfaces Rest).

Lemma consolidate_lagg_frame db row db' :
  consolidate_lagg db row = Some db' ->
  set_int_mtu None <$> interfaces db' = set_int_mtu None <$> interfaces db.
Proof.
  unfold consolidate_lagg.
  change (foldl consolidate_member (interfaces db, None)
                (lagginterfacemembers_set db (fst row)))
    with (consolidate_members (interfaces db) None
                              (lagginterfacemembers_set db (fst row))).
  pose proof (consolidate_members_frame
                (lagginterfacemembers_set db (fst row)) (interfaces db) None)
    as Hfr.
  destruct (consolidate_members _ _ _) as [tbl' low]. cbn [fst snd] in *.
  destruct (mtu_truthy low).
  - destruct (tbl' !! lagg_interface (snd row)) as [parent|] eqn:Hp;
      [|discriminate].
    cbn. intros [= <-]. cbn. rewrite list_fmap_insert, Hfr.
    apply list_insert_id. rewrite <- Hfr, list_lookup_fmap, Hp. reflexivity.
  - intros [= <-]. exact Hfr.
Qed.

Lemma consolidate_laggs_frame (rows : list (nat * LAGGInterface)) :
  forall db db',
    for_each consolidate_lagg db rows = Some db' ->
    set_int_mtu None <$> interfaces db' = set_int_mtu None <$> interfaces db.
Proof.
  induction rows as [|row rows IH]; intros db db' H; cbn in H.
  - injection H as <-. reflexivity.
  - destruct (consolidate_lagg db row) as [db1|] eqn:H1; [|discriminate].
    rewrite (IH _ _ H). exact (consolidate_lagg_frame _ _ _ H1).
Qed.

(** The second loop leaves the options as the first loop wrote them. *)
Lemma move_mtu_from_options_lookup db db' k i' :
  move_mtu_from_options db = Some db' ->
  interfaces db' !! k = Some i' ->
  exists i,
    interfaces db !! k = Some i
    /\ int_options i' = int_options (extracted i).
Proof.
  unfold move_mtu_from_options. intros H Hk.
  apply consolidate_laggs_frame in H. cbn in H.
  apply (f_equal (fun l => l !! k)) in H.
  rewrite !list_lookup_fmap, Hk, extract_all_map, list_lookup_fmap in H.
  destruct (interfaces db !! k) as [i|]; [|discriminate].
  exists i. split; [reflexivity|].
  cbn in H. injection H as _ _ Ho _. exact Ho.
Qed.

(** C1, as amended: after the whole migration, a row in whose options, as
    the relocation left them, [mtu] is written at most once holds no
    standalone [mtu <N>] token in its options. *)
Theorem C1_no_token_after_migration db db1 db' k i1 i' :
  move_laggmember_options default_rest db = Some db1 ->
  migrate default_rest db = Some db' ->
  interfaces db1 !! k = Some i1 ->
  interfaces db' !! k = Some i' ->
  (Text.count "mtu" (int_options i1) <= 1)%nat ->
  ~ Text.mtu_token (int_options i').
Proof.
  intros H1 Hm Hk1 Hk' Hc. unfold migrate in Hm. rewrite H1 in Hm.
  change (move_mtu_from_options (add_int_mtu (remove_lagg_deviceoptions db1))
          = Some db') in Hm.
  destruct (move_mtu_from_options_lookup _ _ _ _ Hm Hk') as (i & Hi & ->).
  cbn in Hi. rewrite list_lookup_fmap, Hk1 in Hi. injection Hi as <-.
  apply extracted_no_token. exact Hc.
Qed.

(** C10: for a member whose NIC has a row, the loop body writes the options
    of that row and nothing else: its other columns, every other row, the
    number of rows and the other tables stand as they were. *)
Theorem C10_existing_row_frame db (m : LAGGInterfaceMembers) k i :
  filter_int_interface (lagg_physnic m) (interfaces db) = Some (k, i) ->
  exists db',
    move_laggmember default_rest db m = Some db'
    /\ length (interfaces db') = length (interfaces db)
    /\ interfaces db' !! k
       = Some (mkInterfaces (int_interface i) (int_name i)
                            (relocated_options (lagg_deviceoptions m))
                            (int_mtu i) (int_rest i))
    /\ (forall j, j <> k -> interfaces db' !! j = interfaces db !! j)
    /\ lagginterface db' = lagginterface db
    /\ lagginterfacemembers db' = lagginterfacemembers db.
Proof.
  intros Hf. unfold move_laggmember. rewrite Hf.
  eexists. split; [reflexivity|]. cbn.
  apply filter_lookup in Hf as [Hk _].
  repeat split.
  - apply length_insert.
  - rewrite list_lookup_insert_eq by exact (lookup_lt_Some _ _ _ Hk).
    reflexivity.
  - intros j Hj. apply list_lookup_insert_ne. auto.
Qed.

End Migrated.

(** ** The relocator on an interior [up] *)

(** C3: on ["foo up bar"], which neither starts nor ends with ["up"], the
    relocator takes the interior [" up "] out with both its spaces: the
    options computed are ["foobar"], not ["foo bar"]. *)
Theorem C3_interior_up_glued :
  Str.startswith "up" "foo up bar" = false
  /\ Str.endswith "up" "foo up bar" = false
  /\ relocated_options ("foo" ++ " up " ++ "bar") = "foobar".
Proof. repeat split. Qed.

(** ** The migration on sample tables *)

Example search_foo :
  Re.RE_MTU_search "foo mtu 9000 bar" = Some (Re.Groups "foo " "9000" " bar").
Proof. reflexivity. Qed.

Example search_glued : Re.RE_MTU_search "mtu 12a" = None.
Proof. reflexivity. Qed.

Example search_joined :
  extract_mtu (Sample.row "em0" "em0" "mtu mtu 5 7" None)
  = Some (Sample.row "em0" "em0" "mtu 7" (Some 5)).
Proof. reflexivity. Qed.

Example sub_blanks_runs : Re.sub_blanks "a  b   c d " = "a b c d ".
Proof. reflexivity. Qed.

Example relocated_up : relocated_options "up" = "".
Proof. reflexivity. Qed.

Example migrate_before :
  migrate tt Sample.db_before
  = Some (mkApps [Sample.row "lagg0" "lagg0" "" (Some 1500);
                  Sample.row "em0" "em0" "" None;
                  Sample.row "em1" "member of lagg0" "" None]
                 [Sample.lagg0]
                 [mkLAGGInterfaceMembers 0 "em0" "";
                  mkLAGGInterfaceMembers 0 "em1" ""]).
Proof. reflexivity. Qed.

Lemma C1_counterexample :
  migrate tt (Sample.db_member "up mtu 1500 mtu 9000")
  = Some (mkApps [Sample.row "lagg0" "lagg0" "" (Some 9000);
                  Sample.row "em0" "em0" "mtu 1500 " None]
                 [Sample.lagg0]
                 [mkLAGGInterfaceMembers 0 "em0" ""])
  /\ Text.mtu_token "mtu 1500 ".
Proof.
  split; [reflexivity|].
  exists "", "1500", " ". repeat split. discriminate.
Qed.

Lemma C1_witness :
  (Text.count "mtu" "mtu 9000" <= 1)%nat
  /\ ~ Text.mtu_token (int_options (Sample.row "em0" "em0" "" None)).
Proof.
  split; [vm_compute; lia|].
  apply (C1_no_token_after_migration tt
           (Sample.db_member "up mtu 9000")
           (mkApps [Sample.row "lagg0" "lagg0" "" None;
                    Sample.row "em0" "em0" "mtu 9000" None]
                   [Sample.lagg0]
                   [mkLAGGInterfaceMembers 0 "em0" "up mtu 9000"])
           (mkApps [Sample.row "lagg0" "lagg0" "" (Some 9000);
                    Sample.row "em0" "em0" "" None]
                   [Sample.lagg0]
                   [mkLAGGInterfaceMembers 0 "em0" ""])
           1%nat
           (Sample.row "em0" "em0" "mtu 9000" None)
           (Sample.row "em0" "em0" "" None));
    reflexivity.
Defined.

Lemma C2_counterexample :
  Str.startswith "up" ("up " ++ "group 1") = true
  /\ "up " ++ "group 1" <> "up"
  /\ relocated_options ("up " ++ "group 1") = "gro1"
  /\ "gro1" <> "group 1".
Proof. repeat split; discriminate. Qed.

Lemma C2_witness :
  Text.occurs "up " "mtu 9000" = false
  /\ relocated_options ("up " ++ "mtu 9000") = "mtu 9000".
Proof. split; [reflexivity|]. apply C2_leading_up. reflexivity. Defined.

Lemma C4_counterexample :
  Str.endswith "up" ("a upb" ++ " up") = true
  /\ Str.startswith "up" ("a upb" ++ " up") = false
  /\ relocated_options ("a upb" ++ " up") = "ab"
  /\ "ab" <> "a upb".
Proof. repeat split; discriminate. Qed.

Lemma C4_witness :
  Str.startswith "up" ("mtu 9000" ++ " up") = false
  /\ Text.occurs " up" "mtu 9000" = false
  /\ relocated_options ("mtu 9000" ++ " up") = "mtu 9000".
Proof.
  split; [reflexivity|]. split; [reflexivity|].
  apply C4_trailing_up; reflexivity.
Defined.

Lemma C5_witness :
  Re.RE_MTU_search "foo mtu 9000 bar" = Some (Re.Groups "foo " "9000" " bar")
  /\ extract_all [Sample.row "em0" "em0" "foo mtu 9000 bar" None] !! O
     = Some (Sample.row "em0" "em0" "foo bar" (Some 9000)).
Proof.
  split; [reflexivity|].
  apply (C5_extract_mtu [Sample.row "em0" "em0" "foo mtu 9000 bar" None] O
           (Sample.row "em0" "em0" "foo mtu 9000 bar" None)
           (Re.Groups "foo " "9000" " bar"));
    [reflexivity|discriminate|reflexivity|reflexivity].
Defined.

Lemma C6_counterexample :
  int_mtu <$> interfaces Sample.db_zero = [Some 9000; Some 0; Some 1500]
  /\ Text.minimum [9000; 0; 1500] = Some 0
  /\ consolidate_lagg Sample.db_zero (O, Sample.lagg0)
     = Some (mkApps [Sample.row "lagg0" "lagg0" "" (Some 1500);
                     Sample.row "em0" "em0" "" (Some 0);
                     Sample.row "em1" "em1" "" None]
                    (lagginterface Sample.db_zero)
                    (lagginterfacemembers Sample.db_zero)).
Proof. repeat split. Qed.

Lemma C6_witness :
  Text.minimum (member_mtus (interfaces Sample.db_two_members)
                  (lagginterfacemembers_set Sample.db_two_members 0))
  = Some 1500
  /\ exists db',
      consolidate_lagg Sample.db_two_members (O, Sample.lagg0) = Some db'
      /\ int_mtu <$> interfaces db' !! O = Some (Some 1500)
      /\ int_mtu <$> interfaces db' !! 1%nat = Some None
      /\ int_mtu <$> interfaces db' !! 2%nat = Some None.
Proof.
  split; [reflexivity|].
  destruct (proj2 (C6_consolidate_lagg Sample.db_two_members O Sample.lagg0)
              1500 (Sample.row "lagg0" "lagg0" "" None) eq_refl eq_refl)
    as (db' & Hrun & Hparent & Hmembers).
  exists db'. split; [exact Hrun|]. split; [exact Hparent|]. split.
  - apply (Hmembers (mkLAGGInterfaceMembers 0 "em0" "") 1%nat
             (Sample.row "em0" "em0" "" (Some 9000)));
      [|reflexivity|reflexivity|discriminate].
    apply list_elem_of_lookup_2 with O. reflexivity.
  - apply (Hmembers (mkLAGGInterfaceMembers 0 "em1" "") 2%nat
             (Sample.row "em1" "em1" "" (Some 1500)));
      [|reflexivity|reflexivity|discriminate].
    apply list_elem_of_lookup_2 with 1%nat. reflexivity.
Defined.

Lemma C8_witness :
  ~ Text.mtu_token "media 10baseT"
  /\ extract_all [Sample.row "em0" "em0" "media 10baseT" (Some 1500)] !! O
     = Some (Sample.row "em0" "em0" "media 10baseT" (Some 1500)).
Proof.
  assert (H : ~ Text.mtu_token "media 10baseT")
    by (apply search_none_iff; reflexivity).
  split; [exact H|].
  exact (proj2 (C8_no_token_unchanged
                  [Sample.row "em0" "em0" "media 10baseT" (Some 1500)] O
                  (Sample.row "em0" "em0" "media 10baseT" (Some 1500))
                  eq_refl H)).
Defined.

Lemma C9_counterexample :
  Text.token_split None ("mtu 1" ++ Text.LF ++ "mtu 2")
                   "" "1" (Text.LF ++ "mtu 2")
  /\ Text.token_split None ("mtu 1" ++ Text.LF ++ "mtu 2")
                      ("mtu 1" ++ Text.LF) "2" ""
  /\ extract_mtu (Sample.row "em0" "em0" ("mtu 1" ++ Text.LF ++ "mtu 2") None)
     = Some (Sample.row "em0" "em0" "" (Some 1)).
Proof. repeat split; discriminate. Qed.

Lemma C9_witness :
  Text.token_split None "mtu 1500 mtu 9000" "mtu 1500 " "9000" ""
  /\ extract_all [Sample.row "em0" "em0" "mtu 1500 mtu 9000" None] !! O
     = Some (Sample.row "em0" "em0" "mtu 1500 " (Some 9000))
  /\ exists P Q, Re.sub_blanks ("mtu 1500 " ++ "") = P ++ "mtu " ++ "1500" ++ Q.
Proof.
  assert (H : Text.token_split None "mtu 1500 mtu 9000" "mtu 1500 " "9000" "")
    by (repeat split; discriminate).
  split; [exact H|].
  destruct (C9_last_token
              [Sample.row "em0" "em0" "mtu 1500 mtu 9000" None] O
              (Sample.row "em0" "em0" "mtu 1500 mtu 9000" None)
              "mtu 1500 " "9000" "" eq_refl eq_refl H no_token_empty)
    as [Hrow Hkept].
  split; [exact Hrow|].
  apply (Hkept "" "1500" " "); [reflexivity|discriminate|reflexivity].
Defined.

Lemma C10_witness :
  filter_int_interface "em0" (interfaces (Sample.db_member "up mtu 9000"))
  = Some (1%nat, Sample.row "em0" "em0" "" None)
  /\ exists db',
      move_laggmember tt (Sample.db_member "up mtu 9000")
                      (mkLAGGInterfaceMembers 0 "em0" "up mtu 9000")
      = Some db'
      /\ interfaces db'
         = [Sample.row "lagg0" "lagg0" "" None;
            Sample.row "em0" "em0" "mtu 9000" None].
Proof.
  split; [reflexivity|].
  destruct (C10_existing_row_frame tt (Sample.db_member "up mtu 9000")
              (mkLAGGInterfaceMembers 0 "em0" "up mtu 9000") 1%nat
              (Sample.row "em0" "em0" "" None) eq_refl)
    as (db' & Hrun & _).
  exists db'. split; [exact Hrun|].
  cbv in Hrun. injection Hrun as <-. reflexivity.
Defined.

(** ** Options of several lines *)

Lemma dot_star_line (x r : string) :
  Text.no_linebreak x = true -> Re.dot_star (x ++ Text.LF ++ r) = x.
Proof.
  induction x as [|c x IH]; cbn; [reflexivity|].
  destruct (Char.is_linebreak c); cbn; [discriminate|].
  intros H. f_equal. auto.
Qed.

Lemma word_boundary_line (prev : option ascii) (x r : string) :
  Re.word_boundary prev (x ++ Text.LF ++ r) = Re.word_boundary prev x.
Proof. destruct x; reflexivity. Qed.

Lemma boundary_then_after_line (prev : ascii) (x r : string) :
  Text.no_linebreak x = true ->
  Re.boundary_then_after prev (x ++ Text.LF ++ r)
  = Re.boundary_then_after prev x.
Proof.
  intros H. unfold Re.boundary_then_after.
  rewrite word_boundary_line, (dot_star_line x r H), (dot_star_keeps x H).
  reflexivity.
Qed.

Lemma digits_then_line (x r : string) :
  forall prev,
    Text.no_linebreak x = true ->
    Re.digits_then prev (x ++ Text.LF ++ r) = Re.digits_then prev x.
Proof.
  induction x as [|c x IH]; intros prev H.
  - exact (boundary_then_after_line prev "" r H).
  - pose proof (boundary_then_after_line prev (String c x) r H) as Hb.
    cbn [Text.no_linebreak] in H. apply andb_true_iff in H as [_ H].
    change (String c x ++ Text.LF ++ r) with (String c (x ++ Text.LF ++ r)) in *.
    cbn [Re.digits_then]. rewrite (IH c H), Hb. reflexivity.
Qed.

Lemma literal_line (p : string) :
  forall x r,
    Text.no_linebreak p = true ->
    Re.literal p (x ++ Text.LF ++ r)
    = (fun rest => rest ++ Text.LF ++ r) <$> Re.literal p x.
Proof.
  induction p as [|a p IH]; intros x r Hp; [reflexivity|].
  cbn [Text.no_linebreak] in Hp. apply andb_true_iff in Hp as [Ha Hp].
  destruct x as [|b x]; cbn.
  - destruct (Ascii.eqb_spec a "010"); [subst; discriminate|reflexivity].
  - destruct (Ascii.eqb a b); [apply IH, Hp|reflexivity].
Qed.

Lemma token_here_line (prev : option ascii) (x r : string) :
  Text.no_linebreak x = true ->
  Re.token_here prev (x ++ Text.LF ++ r) = Re.token_here prev x.
Proof.
  intros H. unfold Re.token_here.
  rewrite word_boundary_line, literal_line by reflexivity.
  destruct (Re.literal "mtu " x) as [[|c s']|] eqn:Hl; try reflexivity.
  apply literal_sound in Hl. subst x.
  rewrite no_linebreak_append in H. apply andb_true_iff in H as [_ H].
  cbn [Text.no_linebreak] in H. apply andb_true_iff in H as [_ H].
  cbn [fmap option_fmap option_map].
  change (String c s' ++ Text.LF ++ r) with (String c (s' ++ Text.LF ++ r)).
  cbv iota beta. rewrite (digits_then_line s' r c H). reflexivity.
Qed.

(** A line feed ends what the pattern can see from a start in the line. *)
Lemma match_here_line (x r : string) :
  forall prev,
    Text.no_linebreak x = true ->
    Re.match_here prev (x ++ Text.LF ++ r) = Re.match_here prev x.
Proof.
  induction x as [|c x IH]; intros prev H.
  - change ("" ++ Text.LF ++ r) with (String "010" r).
    rewrite match_here_cons.
    replace (Char.is_linebreak "010") with true by reflexivity.
    exact (f_equal (fun t => match t with
                             | Some (d, a) => Some (Re.Groups "" d a)
                             | None => None
                             end) (token_here_line prev "" r H)).
  - pose proof (token_here_line prev (String c x) r H) as Ht.
    cbn [Text.no_linebreak] in H. apply andb_true_iff in H as [_ H].
    change (String c x ++ Text.LF ++ r) with (String c (x ++ Text.LF ++ r)) in *.
    rewrite !match_here_cons, (IH (Some c) H), Ht. reflexivity.
Qed.

Lemma token_here_prev (p1 p2 : option ascii) (s : string) :
  from_option Char.is_word false p1 = from_option Char.is_word false p2 ->
  Re.token_here p1 s = Re.token_here p2 s.
Proof.
  intros H. unfold Re.token_here. rewrite !word_boundary_eq, H. reflexivity.
Qed.

Lemma match_here_prev (p1 p2 : option ascii) (s : string) :
  from_option Char.is_word false p1 = from_option Char.is_word false p2 ->
  Re.match_here p1 s = Re.match_here p2 s.
Proof.
  intros H. destruct s as [|c s].
  - cbn [Re.match_here]. rewrite (token_here_prev p1 p2 _ H). reflexivity.
  - rewrite !match_here_cons, (token_here_prev p1 p2 _ H). reflexivity.
Qed.

Lemma search_from_prev (p1 p2 : option ascii) (s : string) :
  from_option Char.is_word false p1 = from_option Char.is_word false p2 ->
  Re.search_from p1 s = Re.search_from p2 s.
Proof.
  intros H. destruct s as [|c s]; cbn [Re.search_from];
    rewrite (match_here_prev p1 p2 _ H); reflexivity.
Qed.

Lemma search_from_line (x r : string) :
  forall prev,
    Text.no_linebreak x = true ->
    Re.search_from prev (x ++ Text.LF ++ r)
    = match Re.search_from prev x with
      | Some g => Some g
      | None => Re.search_from None r
      end.
Proof.
  induction x as [|c x IH]; intros prev H.
  - pose proof (match_here_line "" r prev H) as Hm.
    change ("" ++ Text.LF ++ r) with (String "010" r) in *.
    cbn [Re.search_from]. rewrite Hm.
    destruct (Re.match_here prev ""); [reflexivity|].
    apply search_from_prev. reflexivity.
  - pose proof (match_here_line (String c x) r prev H) as Hm.
    cbn [Text.no_linebreak] in H. apply andb_true_iff in H as [_ H].
    change (String c x ++ Text.LF ++ r) with (String c (x ++ Text.LF ++ r)) in *.
    cbn [Re.search_from]. rewrite Hm, (IH (Some c) H).
    destruct (Re.match_here prev (String c x)); reflexivity.
Qed.

(** X1: [RE_MTU.search] returns no match exactly on the strings that hold
    no standalone [mtu <N>] token. *)
Theorem X1_search_none_iff_no_token (s : string) :
  Re.RE_MTU_search s = None <-> ~ Text.mtu_token s.
Proof. exact (search_none_iff s). Qed.

(** X2: on options of several lines, [RE_MTU.search] gives the match of the
    first line when that line has one, and otherwise what it gives on the
    text behind the first line feed. *)
Theorem X2_search_first_line (l r : string) :
  Text.no_linebreak l = true ->
  Re.RE_MTU_search (l ++ Text.LF ++ r)
  = match Re.RE_MTU_search l with
    | Some g => Some g
    | None => Re.RE_MTU_search r
    end.
Proof. intros H. exact (search_from_line l r None H). Qed.

Lemma X2_witness :
  Text.no_linebreak "mtu 1" = true
  /\ Re.RE_MTU_search ("mtu 1" ++ Text.LF ++ "mtu 2")
     = Some (Re.Groups "" "1" "").
Proof.
  split; [reflexivity|].
  rewrite (X2_search_first_line "mtu 1" "mtu 2" eq_refl). reflexivity.
Defined.

(** ** The groups of a match, put back together *)

Lemma dot_star_split_line (s : string) :
  exists tail,
    s = Re.dot_star s ++ tail
    /\ Text.line_end tail = true
    /\ Text.no_linebreak (Re.dot_star s) = true.
Proof.
  induction s as [|c s (tail & IH & Ht & Hn)]; cbn.
  - exists "". auto.
  - destruct (Char.is_linebreak c) eqn:Hc.
    + exists (String c s). cbn. auto.
    + exists tail. cbn. rewrite Hc, Hn. repeat split; auto. congruence.
Qed.

Lemma last_or_nonempty (prev : option ascii) (p : string) :
  p <> "" -> Text.last_or prev p = Text.last_or None p.
Proof. destruct p; [contradiction|reflexivity]. Qed.

Lemma decimal_no_linebreak (d : string) :
  Text.all_decimal d = true -> Text.no_linebreak d = true.
Proof.
  induction d as [|c d IH]; cbn; [reflexivity|].
  intros H. apply andb_true_iff in H as [Hc H]. rewrite (IH H), andb_true_r.
  unfold Char.is_decimal, Char.between, Char.is_linebreak in *.
  apply andb_true_iff in Hc as [H1 _]. apply N.leb_le in H1.
  apply negb_true_iff, N.eqb_neq. lia.
Qed.

Lemma line_end_starts_word (tail : string) :
  Text.line_end tail = true -> Text.starts_word tail = false.
Proof.
  destruct tail as [|c tail]; cbn; [reflexivity|].
  unfold Char.is_linebreak. intros H. apply N.eqb_eq in H.
  unfold Char.is_word, Char.is_alnum, Char.is_decimal, Char.between.
  rewrite H. reflexivity.
Qed.

Lemma starts_word_append (q tail : string) :
  Text.starts_word q = false ->
  Text.starts_word tail = false ->
  Text.starts_word (q ++ tail) = false.
Proof. destruct q; cbn; auto. Qed.

(** A token of the line is found from any start before it. *)
Lemma match_here_complete (pre : string) :
  forall prev s n post,
    Text.token_split prev s pre n post ->
    Text.no_linebreak pre = true ->
    Re.match_here prev s <> None.
Proof.
  induction pre as [|c pre IH]; intros prev s n post Ht Hl.
  - destruct Ht as (-> & Hne & Hd & Hp & Hs).
    exact (match_here_some prev _ _ _
             (token_here_complete prev n post Hne Hd Hp Hs)).
  - destruct Ht as (-> & Hne & Hd & Hp & Hs).
    cbn [Text.no_linebreak] in Hl. apply andb_true_iff in Hl as [Hc Hl].
    apply negb_true_iff in Hc.
    change (String c pre ++ "mtu " ++ n ++ post)
      with (String c (pre ++ "mtu " ++ n ++ post)).
    rewrite match_here_cons, Hc.
    assert (Hin : Re.match_here (Some c) (pre ++ "mtu " ++ n ++ post) <> None).
    { apply (IH (Some c) _ n post); [|exact Hl]. repeat split; auto. }
    destruct (Re.match_here (Some c) _); [discriminate|contradiction].
Qed.

(** The token matched is the last of its line. *)
Lemma match_here_after_clean (s : string) :
  forall prev g,
    Re.match_here prev s = Some g -> ~ Text.mtu_token (Re.after g).
Proof.
  assert (Hstop : forall prev s g,
             match Re.token_here prev s with
             | Some (d, a) => Some (Re.Groups "" d a)
             | None => None
             end = Some g ->
             (forall c s', s = String c s' ->
                           Char.is_linebreak c = false ->
                           Re.match_here (Some c) s' = None) ->
             ~ Text.mtu_token (Re.after g)).
  { intros prev s0 g H Hdeep (p & n & q & Ha & Hne & Hd & Hp & Hq).
    destruct (Re.token_here prev s0) as [[d a]|] eqn:Ht; [|discriminate].
    injection H as <-. cbn in Ha.
    apply token_here_sound in Ht as (rest & -> & -> & Hdne & Hdd & _ & Hrest).
    destruct (dot_star_split_line rest) as (tail & Hsplit & Htail & Hline).
    assert (Hpne : p <> "").
    { intros ->. apply starts_word_dot_star in Hrest.
      rewrite Ha in Hrest. discriminate. }
    specialize (Hdeep "m"%char ("tu " ++ d ++ rest) eq_refl eq_refl).
    revert Hdeep.
    apply (match_here_complete ("tu " ++ d ++ p) (Some "m"%char) _ n (q ++ tail)).
    - repeat split; auto.
      + rewrite Hsplit at 1. rewrite Ha. cbn. rewrite !append_assoc. cbn.
        rewrite !append_assoc. reflexivity.
      + unfold Text.ends_word in *.
        change ("tu " ++ d ++ p) with (("tu " ++ d) ++ p).
        rewrite last_or_append, (last_or_nonempty _ p Hpne). exact Hp.
      + apply starts_word_append; [exact Hq|].
        apply line_end_starts_word, Htail.
    - rewrite Ha in Hline.
      rewrite no_linebreak_append in Hline.
      apply andb_true_iff in Hline as [Hlp _].
      change ("tu " ++ d ++ p) with ("tu " ++ (d ++ p)).
      rewrite !no_linebreak_append, (decimal_no_linebreak d Hdd), Hlp.
      reflexivity. }
  induction s as [|c s IH]; intros prev g H.
  - apply (Hstop prev "" g H). intros c s' E. discriminate.
  - rewrite match_here_cons in H.
    destruct (Char.is_linebreak c) eqn:Hc.
    + apply (Hstop prev (String c s) g H).
      intros c' s' [= <- <-] Hc'. congruence.
    + destruct (Re.match_here (Some c) s) as [g'|] eqn:Hm.
      * injection H as <-. cbn. exact (IH _ _ Hm).
      * apply (Hstop prev (String c s) g H).
        intros c' s' [= <- <-] _. exact Hm.
Qed.

Lemma search_from_found (s : string) :
  forall prev g,
    Re.search_from prev s = Some g ->
    exists prev' s', Re.match_here prev' s' = Some g.
Proof.
  induction s as [|c s IH]; intros prev g H; cbn [Re.search_from] in H.
  - destruct (Re.match_here prev "") eqn:Hm; [|discriminate].
    injection H as ->. eauto.
  - destruct (Re.match_here prev (String c s)) eqn:Hm.
    + injection H as ->. eauto.
    + eauto.
Qed.

(** X3: the groups of a match put the text of one line of the options back
    together: what was skipped, [before], the word [mtu], a space, the
    digits of [mtu], [after], and the rest from the next line feed on; the
    token stands alone, and no further token follows it in [after]. *)
Theorem X3_groups_reassemble (s : string) (g : Re.groups) :
  Re.RE_MTU_search s = Some g ->
  exists skipped tail,
    s = skipped ++ Re.before g ++ "mtu " ++ Re.mtu g ++ Re.after g ++ tail
    /\ Text.token_split None s (skipped ++ Re.before g) (Re.mtu g)
                        (Re.after g ++ tail)
    /\ Text.no_linebreak (Re.before g) = true
    /\ Text.no_linebreak (Re.after g) = true
    /\ Text.line_end tail = true
    /\ ~ Text.mtu_token (Re.after g).
Proof.
  intros H.
  destruct (search_from_found _ _ _ H) as (prev' & s' & Hm).
  apply match_here_after_clean in Hm.
  apply search_from_sound in H
    as (skipped & rest & -> & Ha & Hne & Hd & Hp & Hs & Hl).
  destruct (dot_star_split_line rest) as (tail & Hsplit & Htail & Hline).
  rewrite <- Ha in Hsplit, Hline. subst rest.
  exists skipped, tail. repeat split; auto.
  - rewrite append_assoc. reflexivity.
  - unfold Text.ends_word in *. rewrite last_or_append. exact Hp.
Qed.

Lemma X3_witness :
  exists skipped tail,
    "media auto mtu 9000 up" ++ Text.LF ++ "x"
    = skipped ++ "media auto " ++ "mtu " ++ "9000" ++ " up" ++ tail
    /\ Text.line_end tail = true.
Proof.
  destruct (X3_groups_reassemble
              ("media auto mtu 9000 up" ++ Text.LF ++ "x")
              (Re.Groups "media auto " "9000" " up") eq_refl)
    as (skipped & tail & H & _ & _ & _ & Ht & _).
  exists skipped, tail. split; [exact H|exact Ht].
Defined.

(** ** More on [re.sub] and on the loop body of the extractor *)

Lemma sub_blanks_clean (s : string) :
  Text.no_blank_run s = true -> Re.sub_blanks_from false s = s.
Proof.
  induction s as [|c s IH]; intros H; [reflexivity|].
  rewrite no_blank_run_cons in H. apply andb_true_iff in H as [Hc H].
  rewrite sub_blanks_from_cons, (IH H).
  destruct (Char.is_space c); [|reflexivity].
  destruct s as [|c' s]; [reflexivity|].
  cbn in Hc. apply negb_true_iff in Hc. rewrite Hc. reflexivity.
Qed.

(** X4: in the result of [re.sub(r'\s{2,}', ' ', s)] no two blanks are
    neighbours, and substituting again changes nothing. *)
Theorem X4_sub_blanks_idempotent (s : string) :
  Text.no_blank_run (Re.sub_blanks s) = true
  /\ Re.sub_blanks (Re.sub_blanks s) = Re.sub_blanks s.
Proof.
  assert (H : Text.no_blank_run (Re.sub_blanks s) = true)
    by apply sub_blanks_no_run.
  split; [exact H|]. exact (sub_blanks_clean _ H).
Qed.

Lemma length_append (a b : string) :
  String.length (a ++ b) = (String.length a + String.length b)%nat.
Proof. induction a as [|c a IH]; cbn; congruence. Qed.

Lemma sub_blanks_length (s : string) :
  forall f, (String.length (Re.sub_blanks_from f s) <= String.length s)%nat.
Proof.
  induction s as [|c s IH]; intros f; [reflexivity|].
  rewrite sub_blanks_from_cons.
  pose proof (IH true) as Ht. pose proof (IH false) as Hf.
  destruct (Char.is_space c).
  - destruct f; [cbn; lia|].
    destruct s as [|c' s]; [reflexivity|].
    destruct (Char.is_space c'); cbn in *; lia.
  - cbn. lia.
Qed.

Section ExtractorBody.

Context {Rest : Type}.
Implicit Types (tbl : list (Interfaces Rest)) (i : Interfaces Rest).

(** X5: when the loop body of the extractor rewrites a row, the new options
    are shorter than the old ones by five characters or more, the word, the
    space and a digit at the least. *)
Theorem X5_extraction_shortens i i' :
  extract_mtu i = Some i' ->
  (String.length (int_options i') + 5 <= String.length (int_options i))%nat.
Proof.
  unfold extract_mtu.
  destruct (negb (Str.truthy (int_options i))); [discriminate|].
  destruct (Re.RE_MTU_search (int_options i)) as [g|] eqn:Hs; [|discriminate].
  intros [= <-]. cbn.
  apply search_from_sound in Hs
    as (skipped & rest & -> & Ha & Hne & _ & _ & _ & _).
  destruct (dot_star_split rest) as [tail Hrest].
  pose proof (f_equal String.length Hrest) as Hlen.
  rewrite <- Ha, length_append in Hlen.
  pose proof (sub_blanks_length (Re.before g ++ Re.after g) false) as Hsub.
  unfold Re.sub_blanks.
  rewrite !length_append in *. cbn [String.length].
  destruct (Re.mtu g) as [|c d]; [contradiction|]. cbn [String.length]. lia.
Qed.

(** X6: when the first line of the options holds a token, the loop body
    writes the row it would write for that line alone: the text behind the
    first line feed takes no part and is not kept. *)
Theorem X6_extraction_keeps_first_line i (l r : string) :
  int_options i = l ++ Text.LF ++ r ->
  Text.no_linebreak l = true ->
  Text.mtu_token l ->
  extract_mtu i = extract_mtu (set_int_options l i).
Proof.
  intros Ho Hl Ht. unfold extract_mtu. cbn [int_options set_int_options].
  rewrite Ho. unfold Re.RE_MTU_search.
  rewrite (search_from_line l r None Hl).
  destruct (Re.search_from None l) as [g|] eqn:Hs.
  - destruct Ht as (pre & n & post & -> & _).
    destruct pre; reflexivity.
  - exfalso. exact (proj1 (search_none_iff l) Hs Ht).
Qed.

(** X7: the first loop of [move_mtu_from_options] keeps the number and the
    order of the rows and writes [int_options] and [int_mtu] only; a row
    that it changed held a token and has a number as its [int_mtu]. *)
Theorem X7_extract_all_frame tbl :
  length (extract_all tbl) = length tbl
  /\ forall k i,
      tbl !! k = Some i ->
      exists i',
        extract_all tbl !! k = Some i'
        /\ int_interface i' = int_interface i
        /\ int_name i' = int_name i
        /\ int_rest i' = int_rest i
        /\ (i' = i
            \/ (Text.mtu_token (int_options i)
                /\ exists n, int_mtu i' = Some n)).
Proof.
  split.
  - rewrite extract_all_map. apply length_fmap.
  - intros k i Hk. exists (extracted i).
    split; [exact (extract_all_lookup tbl k i Hk)|].
    unfold extracted, extract_mtu.
    destruct (negb (Str.truthy (int_options i))); [cbn; auto|].
    destruct (Re.RE_MTU_search (int_options i)) as [g|] eqn:Hs; [|cbn; auto].
    cbn. repeat split. right. split; [exact (search_token _ _ Hs)|eauto].
Qed.

End ExtractorBody.

Lemma X5_witness :
  (String.length "foo bar" + 5 <= String.length "foo mtu 9000 bar")%nat.
Proof.
  exact (X5_extraction_shortens
           (Sample.row "em0" "em0" "foo mtu 9000 bar" None)
           (Sample.row "em0" "em0" "foo bar" (Some 9000)) eq_refl).
Defined.

Lemma X6_witness :
  extract_mtu (Sample.row "em0" "em0" ("mtu 1500 up" ++ Text.LF ++ "media x")
                          None)
  = Some (Sample.row "em0" "em0" " up" (Some 1500)).
Proof.
  rewrite (X6_extraction_keeps_first_line
             (Sample.row "em0" "em0" ("mtu 1500 up" ++ Text.LF ++ "media x")
                         None)
             "mtu 1500 up" "media x" eq_refl eq_refl).
  - reflexivity.
  - exists "", "1500", " up". repeat split. discriminate.
Defined.

Lemma X7_witness :
  exists i',
    extract_all [Sample.row "em0" "em0" "mtu 9000" None] !! O = Some i'
    /\ int_interface i' = "em0".
Proof.
  destruct (proj2 (X7_extract_all_frame
                     [Sample.row "em0" "em0" "mtu 9000" None])
              O (Sample.row "em0" "em0" "mtu 9000" None) eq_refl)
    as (i' & H & Hn & _).
  exists i'. split; [exact H|exact Hn].
Defined.

(** X8: device options that neither start nor end with ["up"] and hold no
    [" up "] are carried over as they are, a [down] among them. *)
Theorem X8_relocated_verbatim (d : string) :
  Str.startswith "up" d = false ->
  Str.endswith "up" d = false ->
  Text.occurs " up " d = false ->
  relocated_options d = d.
Proof.
  intros Hs He Ho. unfold relocated_options. rewrite Hs, He.
  destruct (String.eqb_spec d "up") as [->|_]; [discriminate|].
  cbn [negb]. apply replace_absent, Ho.
Qed.

Lemma X8_witness : relocated_options "down mtu 9000" = "down mtu 9000".
Proof. apply X8_relocated_verbatim; reflexivity. Defined.

(** ** The whole loop of [move_laggmember_options] *)

Lemma for_each_app {S A : Type} (body : S -> A -> option S) (l1 l2 : list A) :
  forall s,
    for_each body s (l1 ++ l2)%list
    = match for_each body s l1 with
      | Some s1 => for_each body s1 l2
      | None => None
      end.
Proof.
  induction l1 as [|x l1 IH]; intros s; cbn; [reflexivity|].
  destruct (body s x); [apply IH|reflexivity].
Qed.

Section RelocatorLoop.

Context {Rest : Type} (default_rest : Rest).
Implicit Types (db : apps Rest) (tbl : list (Interfaces Rest)).
Implicit Types (i : Interfaces Rest) (m : LAGGInterfaceMembers).

Lemma filter_app nic tbl tbl2 :
  filter_int_interface nic (tbl ++ tbl2)%list
  = match filter_int_interface nic tbl with
    | Some r => Some r
    | None =>
        match filter_int_interface nic tbl2 with
        | Some (k, i) => Some ((length tbl + k)%nat, i)
        | None => None
        end
    end.
Proof.
  induction tbl as [|r tbl IH]; cbn.
  - destruct (filter_int_interface nic tbl2) as [[k i]|]; reflexivity.
  - destruct (String.eqb (int_interface r) nic); [reflexivity|].
    rewrite IH.
    destruct (filter_int_interface nic tbl) as [[k i]|]; [reflexivity|].
    destruct (filter_int_interface nic tbl2) as [[k i]|]; reflexivity.
Qed.

Lemma filter_one nic i :
  filter_int_interface nic [i]
  = if String.eqb (int_interface i) nic then Some (O, i) else None.
Proof. reflexivity. Qed.

(** What one turn of the loop does to the tables. *)
Lemma move_laggmember_step db m db' :
  move_laggmember default_rest db m = Some db' ->
  lagginterface db' = lagginterface db
  /\ lagginterfacemembers db' = lagginterfacemembers db
  /\ (exists created,
         set_int_options "" <$> interfaces db'
         = ((set_int_options "" <$> interfaces db) ++ created)%list)
  /\ (exists k i',
         filter_int_interface (lagg_physnic m) (interfaces db') = Some (k, i')
         /\ int_options i' = relocated_options (lagg_deviceoptions m))
  /\ (forall nic,
         nic <> lagg_physnic m ->
         filter_int_interface nic (interfaces db')
         = filter_int_interface nic (interfaces db))
  /\ (forall k i,
         interfaces db !! k = Some i ->
         int_interface i <> lagg_physnic m ->
         interfaces db' !! k = Some i).
Proof.
  unfold move_laggmember.
  destruct (filter_int_interface (lagg_physnic m) (interfaces db))
    as [[k0 i0]|] eqn:Hf.
  - intros [= <-]. cbn [interfaces lagginterface lagginterfacemembers
                        with_interfaces].
    destruct (filter_lookup _ _ _ _ Hf) as [Hk0 Hn0].
    split; [reflexivity|]. split; [reflexivity|]. split; [|split; [|split]].
    + exists []. rewrite app_nil_r, list_fmap_insert.
      apply list_insert_id. rewrite list_lookup_fmap, Hk0. reflexivity.
    + eexists k0, _. split.
      * rewrite (filter_insert _ _ _ i0) by (assumption || reflexivity).
        rewrite Hf. destruct (decide (k0 = k0)); [reflexivity|contradiction].
      * reflexivity.
    + intros nic Hnic.
      rewrite (filter_insert _ _ _ i0) by (assumption || reflexivity).
      destruct (filter_int_interface nic (interfaces db)) as [[j x]|] eqn:Hj;
        [|reflexivity].
      destruct (decide (j = k0)) as [->|_]; [|reflexivity].
      destruct (filter_lookup _ _ _ _ Hj) as [Hx Hnx].
      rewrite Hk0 in Hx. injection Hx as <-. congruence.
    + intros k i Hk Hn. rewrite list_lookup_insert_ne; [exact Hk|].
      intros <-. rewrite Hk0 in Hk. injection Hk as <-. contradiction.
  - destruct (lagginterface db !! lagg_interfacegroup m) as [lagg|];
      [|discriminate].
    cbn. destruct (interfaces db !! lagg_interface lagg) as [parent|];
      [|discriminate].
    cbn. intros [= <-]. cbn.
    split; [reflexivity|]. split; [reflexivity|]. split; [|split; [|split]].
    + eexists. apply fmap_app.
    + eexists _, _. split.
      * rewrite filter_app, Hf, filter_one. cbn.
        rewrite String.eqb_refl. reflexivity.
      * reflexivity.
    + intros nic Hnic. rewrite filter_app, filter_one. cbn.
      destruct (String.eqb_spec (lagg_physnic m) nic) as [E|_];
        [congruence|].
      destruct (filter_int_interface nic (interfaces db)); reflexivity.
    + intros k i Hk _. apply lookup_app_l_Some, Hk.
Qed.

Lemma relocate_loop_tables (ms : list LAGGInterfaceMembers) :
  forall db db',
    for_each (move_laggmember default_rest) db ms = Some db' ->
    lagginterface db' = lagginterface db
    /\ lagginterfacemembers db' = lagginterfacemembers db
    /\ exists created,
        set_int_options "" <$> interfaces db'
        = ((set_int_options "" <$> interfaces db) ++ created)%list.
Proof.
  induction ms as [|m ms IH]; intros db db' H; cbn in H.
  - injection H as <-. repeat split. exists []. symmetry. apply app_nil_r.
  - destruct (move_laggmember default_rest db m) as [db1|] eqn:H1;
      [|discriminate].
    apply move_laggmember_step in H1 as (Hl & Hm & (c1 & Hc1) & _).
    apply IH in H as (Hl' & Hm' & (c2 & Hc2)).
    split; [congruence|]. split; [congruence|].
    exists (c1 ++ c2)%list. rewrite Hc2, Hc1, app_assoc. reflexivity.
Qed.

Lemma relocate_loop_other_nic (ms : list LAGGInterfaceMembers) :
  forall db db' nic,
    for_each (move_laggmember default_rest) db ms = Some db' ->
    (forall m, m ∈ ms -> lagg_physnic m <> nic) ->
    filter_int_interface nic (interfaces db')
    = filter_int_interface nic (interfaces db).
Proof.
  induction ms as [|m ms IH]; intros db db' nic H Hn; cbn in H.
  - injection H as <-. reflexivity.
  - destruct (move_laggmember default_rest db m) as [db1|] eqn:H1;
      [|discriminate].
    apply move_laggmember_step in H1 as (_ & _ & _ & _ & Hother & _).
    rewrite (IH db1 db' nic H).
    + apply Hother. intros ->. apply (Hn m); [apply elem_of_cons; auto|].
      reflexivity.
    + intros m' Hin. apply Hn, elem_of_cons. auto.
Qed.

Lemma relocate_loop_other_row (ms : list LAGGInterfaceMembers) :
  forall db db' k i,
    for_each (move_laggmember default_rest) db ms = Some db' ->
    interfaces db !! k = Some i ->
    (forall m, m ∈ ms -> lagg_physnic m <> int_interface i) ->
    interfaces db' !! k = Some i.
Proof.
  induction ms as [|m ms IH]; intros db db' k i H Hk Hn; cbn in H.
  - injection H as <-. exact Hk.
  - destruct (move_laggmember default_rest db m) as [db1|] eqn:H1;
      [|discriminate].
    apply move_laggmember_step in H1 as (_ & _ & _ & _ & _ & Hrow).
    apply (IH db1 db' k i H).
    + apply Hrow; [exact Hk|]. intros E. apply (Hn m); [|auto].
      apply elem_of_cons. auto.
    + intros m' Hin. apply Hn, elem_of_cons. auto.
Qed.

Lemma relocate_loop_found (ms : list LAGGInterfaceMembers) :
  forall db db' nic,
    for_each (move_laggmember default_rest) db ms = Some db' ->
    is_Some (filter_int_interface nic (interfaces db)) ->
    is_Some (filter_int_interface nic (interfaces db')).
Proof.
  induction ms as [|m ms IH]; intros db db' nic H Hf; cbn in H.
  - injection H as <-. exact Hf.
  - destruct (move_laggmember default_rest db m) as [db1|] eqn:H1;
      [|discriminate].
    apply (IH db1 db' nic H).
    apply move_laggmember_step in H1 as (_ & _ & _ & (k & i' & Hm & _) & Ho & _).
    destruct (String.eqb_spec nic (lagg_physnic m)) as [->|Hne].
    + rewrite Hm. eauto.
    + rewrite (Ho nic Hne). exact Hf.
Qed.

(** X9: after [move_laggmember_options], the NIC of every member has a row,
    and the row found for a NIC holds the relocated options of the last
    member of that NIC. *)
Theorem X9_relocated_rows db db' :
  move_laggmember_options default_rest db = Some db' ->
  (forall m,
      m ∈ lagginterfacemembers db ->
      is_Some (filter_int_interface (lagg_physnic m) (interfaces db')))
  /\ (forall ms1 m ms2,
        lagginterfacemembers db = (ms1 ++ m :: ms2)%list ->
        (forall m', m' ∈ ms2 -> lagg_physnic m' <> lagg_physnic m) ->
        exists k i',
          filter_int_interface (lagg_physnic m) (interfaces db') = Some (k, i')
          /\ int_options i' = relocated_options (lagg_deviceoptions m)).
Proof.
  unfold move_laggmember_options. intros H. split.
  - intros m Hin. apply list_elem_of_split in Hin as (ms1 & ms2 & E).
    rewrite E, for_each_app in H.
    destruct (for_each (move_laggmember default_rest) db ms1) as [db1|];
      [|discriminate].
    cbn in H.
    destruct (move_laggmember default_rest db1 m) as [db2|] eqn:H2;
      [|discriminate].
    apply (relocate_loop_found ms2 db2 db' _ H).
    apply move_laggmember_step in H2 as (_ & _ & _ & (k & i' & Hm & _) & _).
    rewrite Hm. eauto.
  - intros ms1 m ms2 E Hlast.
    rewrite E, for_each_app in H.
    destruct (for_each (move_laggmember default_rest) db ms1) as [db1|];
      [|discriminate].
    cbn in H.
    destruct (move_laggmember default_rest db1 m) as [db2|] eqn:H2;
      [|discriminate].
    apply move_laggmember_step in H2 as (_ & _ & _ & (k & i' & Hm & Ho) & _).
    exists k, i'. split; [|exact Ho].
    rewrite (relocate_loop_other_nic ms2 db2 db' _ H Hlast). exact Hm.
Qed.

(** X10: [move_laggmember_options] leaves the two LAGG tables as they are,
    keeps every row of [Interfaces] in its place with all its columns but
    [int_options], adds its new rows behind them, and leaves whole every
    row whose NIC is that of no member. *)
Theorem X10_relocator_frame db db' :
  move_laggmember_options default_rest db = Some db' ->
  lagginterface db' = lagginterface db
  /\ lagginterfacemembers db' = lagginterfacemembers db
  /\ (exists created,
         set_int_options "" <$> interfaces db'
         = ((set_int_options "" <$> interfaces db) ++ created)%list)
  /\ (forall k i,
         interfaces db !! k = Some i ->
         (forall m, m ∈ lagginterfacemembers db ->
                    lagg_physnic m <> int_interface i) ->
         interfaces db' !! k = Some i).
Proof.
  unfold move_laggmember_options. intros H.
  destruct (relocate_loop_tables _ _ _ H) as (Hl & Hm & Hc).
  repeat split; auto.
  intros k i Hk Hn. exact (relocate_loop_other_row _ _ _ k i H Hk Hn).
Qed.

End RelocatorLoop.

(** ** When the migration goes through *)

Section Success.

Context {Rest : Type} (default_rest : Rest).
Implicit Types (db : apps Rest) (tbl : list (Interfaces Rest)).
Implicit Types (i : Interfaces Rest) (m : LAGGInterfaceMembers).

Lemma frame_lookup tbl tbl1 (created : list (Interfaces Rest)) p :
  set_int_options "" <$> tbl1
  = ((set_int_options "" <$> tbl) ++ created)%list ->
  is_Some (tbl !! p) -> is_Some (tbl1 !! p).
Proof.
  intros H [x Hx].
  apply (f_equal (fun l => l !! p)) in H.
  rewrite list_lookup_fmap in H.
  rewrite (lookup_app_l_Some _ _ _ (set_int_options "" x)) in H
    by (rewrite list_lookup_fmap, Hx; reflexivity).
  destruct (tbl1 !! p); [eauto|discriminate].
Qed.

Lemma relocate_loop_success (ms : list LAGGInterfaceMembers) :
  forall db,
    (forall m, m ∈ ms ->
               exists lagg,
                 lagginterface db !! lagg_interfacegroup m = Some lagg
                 /\ is_Some (interfaces db !! lagg_interface lagg)) ->
    exists db', for_each (move_laggmember default_rest) db ms = Some db'.
Proof.
  induction ms as [|m ms IH]; intros db Hfk; cbn; [eauto|].
  assert (H1 : exists db1, move_laggmember default_rest db m = Some db1).
  { unfold move_laggmember.
    destruct (filter_int_interface _ _) as [[k i]|]; [eauto|].
    destruct (Hfk m) as (lagg & Hl & [parent Hp]); [apply elem_of_cons; auto|].
    rewrite Hl. cbn. rewrite Hp. cbn. eauto. }
  destruct H1 as [db1 H1]. rewrite H1. apply IH.
  intros m' Hin.
  destruct (Hfk m') as (lagg & Hl & Hp); [apply elem_of_cons; auto|].
  apply (move_laggmember_step default_rest) in H1
    as (Hlagg & _ & (created & Hc) & _).
  exists lagg. rewrite Hlagg. split; [exact Hl|].
  exact (frame_lookup _ _ _ _ Hc Hp).
Qed.

(** X11: [move_laggmember_options] raises nothing when every member points
    to a LAGG that is there and whose parent row is there. *)
Theorem X11_relocator_succeeds db :
  (forall m, m ∈ lagginterfacemembers db ->
             exists lagg,
               lagginterface db !! lagg_interfacegroup m = Some lagg
               /\ is_Some (interfaces db !! lagg_interface lagg)) ->
  exists db', move_laggmember_options default_rest db = Some db'.
Proof. apply relocate_loop_success. Qed.

Lemma consolidate_lagg_tables db row db' :
  consolidate_lagg db row = Some db' ->
  lagginterface db' = lagginterface db
  /\ lagginterfacemembers db' = lagginterfacemembers db.
Proof.
  unfold consolidate_lagg.
  destruct (mtu_truthy _).
  - destruct (_ !! _); [|discriminate]. cbn. intros [= <-]. auto.
  - intros [= <-]. auto.
Qed.







End Success.

(** ** Consolidating a LAGG a second time *)

Section Again.

Context {Rest : Type}.
Implicit Types (db : apps Rest) (tbl : list (Interfaces Rest)).
Implicit Types (i : Interfaces Rest) (m : LAGGInterfaceMembers).

(** Tables that differ in [int_mtu] only give [filter] the same places. *)
Lemma filter_frame nic tbl :
  forall tbl',
    set_int_mtu None <$> tbl' = set_int_mtu None <$> tbl ->
    filter_int_interface nic tbl'
    = match filter_int_interface nic tbl with
      | Some (k, _) => (fun i' => (k, i')) <$> tbl' !! k
      | None => None
      end.
Proof.
  induction tbl as [|r tbl IH]; intros tbl' H.
  - destruct tbl'; [reflexivity|discriminate].
  - destruct tbl' as [|r' tbl']; [discriminate|].
    cbn in H. injection H as Hn _ _ _ H.
    cbn [filter_int_interface]. rewrite Hn.
    destruct (String.eqb (int_interface r) nic); [reflexivity|].
    rewrite (IH tbl' H).
    destruct (filter_int_interface nic tbl) as [[k x]|]; [|reflexivity].
    cbn. destruct (tbl' !! k); reflexivity.
Qed.

Lemma member_mtus_none tbl (ms : list LAGGInterfaceMembers) :
  (forall m, m ∈ ms -> member_mtu tbl m = None) -> member_mtus tbl ms = [].
Proof.
  induction ms as [|m ms IH]; intros H; [reflexivity|].
  unfold member_mtus in *. cbn [omap list_omap].
  rewrite (H m) by (apply elem_of_cons; auto).
  apply IH. intros m' Hin. apply H, elem_of_cons. auto.
Qed.

(** X14: consolidating a LAGG once more right after it was consolidated
    writes nothing, when the parent row is the row of none of the members:
    the numbers of the members are gone. *)
Theorem X14_consolidate_again db (pk : nat) (lagg : LAGGInterface) db' :
  consolidate_lagg db (pk, lagg) = Some db' ->
  (forall m k i,
      m ∈ lagginterfacemembers_set db pk ->
      filter_int_interface (lagg_physnic m) (interfaces db) = Some (k, i) ->
      k <> lagg_interface lagg) ->
  consolidate_lagg db' (pk, lagg) = Some db'.
Proof.
  intros H Hparent.
  pose proof (consolidate_lagg_frame _ _ _ H) as Hfr.
  destruct (consolidate_lagg_tables _ _ _ H) as [_ Hms].
  assert (Hset : lagginterfacemembers_set db' pk
                 = lagginterfacemembers_set db pk).
  { unfold lagginterfacemembers_set. rewrite Hms. reflexivity. }
  assert (Hnone : member_mtus (interfaces db')
                              (lagginterfacemembers_set db pk) = []).
  { apply member_mtus_none. intros m Hin. unfold member_mtu.
    rewrite (filter_frame _ _ _ Hfr).
    destruct (filter_int_interface (lagg_physnic m) (interfaces db))
      as [[k i]|] eqn:Hf; [|reflexivity].
    specialize (Hparent m k i Hin Hf).
    assert (Hk : exists i', interfaces db' !! k = Some i'
                            /\ mtu_truthy (int_mtu i') = false).
    { revert H. unfold consolidate_lagg. cbn [fst snd].
      change (foldl consolidate_member (interfaces db, None)
                    (lagginterfacemembers_set db pk))
        with (consolidate_members (interfaces db) None
                                  (lagginterfacemembers_set db pk)).
      pose proof (consolidate_members_cleared
                    (lagginterfacemembers_set db pk) (interfaces db) None
                    m k i Hin Hf) as Hclear.
      pose proof (consolidate_members_keeps
                    (lagginterfacemembers_set db pk) (interfaces db) None
                    k i (proj1 (filter_lookup _ _ _ _ Hf))) as Hkeep.
      destruct (consolidate_members _ _ _) as [tbl1 low]. cbn [fst snd] in *.
      assert (Hrow : exists i', tbl1 !! k = Some i'
                                /\ mtu_truthy (int_mtu i') = false).
      { destruct (mtu_truthy (int_mtu i)) eqn:Ht.
        - specialize (Hclear eq_refl).
          destruct (tbl1 !! k) as [i'|]; [|discriminate].
          exists i'. split; [reflexivity|].
          cbn in Hclear. injection Hclear as ->. reflexivity.
        - exists i. split; [exact (Hkeep eq_refl)|exact Ht]. }
      destruct (mtu_truthy low).
      - destruct (tbl1 !! lagg_interface lagg); [|discriminate].
        cbn. intros [= <-]. cbn.
        rewrite list_lookup_insert_ne by auto. exact Hrow.
      - intros [= <-]. exact Hrow. }
    destruct Hk as (i' & -> & Hi'). cbn. rewrite Hi'. reflexivity. }
  unfold consolidate_lagg. cbn [fst snd].
  change (foldl consolidate_member (interfaces db', None)
                (lagginterfacemembers_set db' pk))
    with (consolidate_members (interfaces db') None
                              (lagginterfacemembers_set db' pk)).
  rewrite Hset, (consolidate_members_idle _ _ None Hnone). cbn.
  destruct db'; reflexivity.
Qed.

End Again.

(** ** The loops on sample tables *)

Lemma X9_witness :
  is_Some (filter_int_interface "em1"
             [Sample.row "lagg0" "lagg0" "" None;
              Sample.row "em0" "em0" "mtu 9000" None;
              Sample.row "em1" "member of lagg0" "mtu 1500" None]).
Proof.
  apply (proj1 (X9_relocated_rows tt Sample.db_before
                  (mkApps [Sample.row "lagg0" "lagg0" "" None;
                           Sample.row "em0" "em0" "mtu 9000" None;
                           Sample.row "em1" "member of lagg0" "mtu 1500" None]
                          (lagginterface Sample.db_before)
                          (lagginterfacemembers Sample.db_before))
                  eq_refl)
           (mkLAGGInterfaceMembers 0 "em1" "mtu 1500 up")).
  apply list_elem_of_lookup_2 with 1%nat. reflexivity.
Defined.

Lemma X10_witness :
  lagginterface
    (mkApps [Sample.row "lagg0" "lagg0" "" None;
             Sample.row "em0" "em0" "mtu 9000" None;
             Sample.row "em1" "member of lagg0" "mtu 1500" None]
            (lagginterface Sample.db_before)
            (lagginterfacemembers Sample.db_before))
  = [Sample.lagg0].
Proof.
  exact (proj1 (X10_relocator_frame tt Sample.db_before _ eq_refl)).
Defined.

Lemma X11_witness :
  exists db', move_laggmember_options tt Sample.db_before = Some db'.
Proof.
  apply X11_relocator_succeeds.
  intros m Hin. exists Sample.lagg0.
  apply list_elem_of_lookup_1 in Hin as [k Hk].
  destruct k as [|[|k]]; cbn in Hk; [| |discriminate];
    injection Hk as <-; split; cbn; eauto.
Defined.



Lemma X14_witness :
  consolidate_lagg
    (mkApps [Sample.row "lagg0" "lagg0" "" (Some 1500);
             Sample.row "em0" "em0" "" None;
             Sample.row "em1" "em1" "" None]
            (lagginterface Sample.db_two_members)
            (lagginterfacemembers Sample.db_two_members))
    (O, Sample.lagg0)
  = Some (mkApps [Sample.row "lagg0" "lagg0" "" (Some 1500);
                  Sample.row "em0" "em0" "" None;
                  Sample.row "em1" "em1" "" None]
                 (lagginterface Sample.db_two_members)
                 (lagginterfacemembers Sample.db_two_members)).
Proof.
  apply (X14_consolidate_again Sample.db_two_members O Sample.lagg0);
    [reflexivity|].
  intros m k i Hin Hf. apply list_elem_of_lookup_1 in Hin as [j Hj].
  destruct j as [|[|j]]; cbn in Hj; [| |discriminate];
    injection Hj as <-; cbn in Hf; injection Hf as <- _; discriminate.
Defined.

(** ** The certificate types *)

(** X15: [cert_internal] says ["NO"] exactly for the types for which
    [cert_issuer] says ["external"], whatever the signing authority. *)
Theorem X15_internal_no_iff_external {CA : Type} (cert_type : Z)
        (cert_signedby : option CA) :
  Cert.cert_internal cert_type = "NO"
  <-> Cert.cert_issuer cert_type cert_signedby
      = Some (Cert.issuer_text "external").
Proof.
  unfold Cert.cert_internal, Cert.cert_issuer.
  destruct (cert_type =? Cert.CA_TYPE_EXISTING)%Z; cbn; [tauto|].
  destruct (cert_type =? Cert.CERT_TYPE_EXISTING)%Z; cbn; [tauto|].
  split; [discriminate|].
  destruct (cert_type =? Cert.CA_TYPE_INTERNAL)%Z; [discriminate|].
  destruct ((cert_type =? Cert.CERT_TYPE_INTERNAL)%Z
            || (cert_type =? Cert.CA_TYPE_INTERMEDIATE)%Z).
  - destruct cert_signedby; discriminate.
  - destruct (cert_type =? Cert.CERT_TYPE_CSR)%Z; discriminate.
Qed.

(** X16: for a type that [cert_issuer] knows, one and only one of the six
    type properties is true. *)
Theorem X16_known_type_one_property {CA : Type} (cert_type : Z) (ca : CA) :
  Cert.cert_issuer cert_type (Some ca) <> None ->
  (Nat.b2n (Cert.CA_type_existing cert_type)
   + Nat.b2n (Cert.CA_type_internal cert_type)
   + Nat.b2n (Cert.CA_type_intermediate cert_type)
   + Nat.b2n (Cert.cert_type_existing cert_type)
   + Nat.b2n (Cert.cert_type_internal cert_type)
   + Nat.b2n (Cert.cert_type_CSR cert_type) = 1)%nat.
Proof.
  unfold Cert.cert_issuer.
  destruct (Z.eqb_spec cert_type Cert.CA_TYPE_EXISTING) as [->|_];
    [reflexivity|].
  destruct (Z.eqb_spec cert_type Cert.CERT_TYPE_EXISTING) as [->|_];
    [reflexivity|].
  destruct (Z.eqb_spec cert_type Cert.CA_TYPE_INTERNAL) as [->|_];
    [reflexivity|].
  destruct (Z.eqb_spec cert_type Cert.CERT_TYPE_INTERNAL) as [->|_];
    [reflexivity|].
  destruct (Z.eqb_spec cert_type Cert.CA_TYPE_INTERMEDIATE) as [->|_];
    [reflexivity|].
  destruct (Z.eqb_spec cert_type Cert.CERT_TYPE_CSR) as [->|_];
    [reflexivity|].
  cbn. contradiction.
Qed.

Lemma X16_witness :
  (Nat.b2n (Cert.CA_type_existing 16)
   + Nat.b2n (Cert.CA_type_internal 16)
   + Nat.b2n (Cert.CA_type_intermediate 16)
   + Nat.b2n (Cert.cert_type_existing 16)
   + Nat.b2n (Cert.cert_type_internal 16)
   + Nat.b2n (Cert.cert_type_CSR 16) = 1)%nat.
Proof. apply (X16_known_type_one_property 16%Z tt). discriminate. Defined.

Lemma append_cancel_l (a x y : string) : a ++ x = a ++ y -> x = y.
Proof. induction a as [|c a IH]; cbn; [auto|]. intros [= H]. auto. Qed.

Lemma append_cancel_r (x : string) :
  forall a b, a ++ x = b ++ x -> a = b.
Proof.
  induction a as [|c a IH]; intros b H.
  - destruct b as [|d b]; [reflexivity|].
    apply (f_equal String.length) in H. cbn in H.
    rewrite length_append in H. lia.
  - destruct b as [|d b].
    + apply (f_equal String.length) in H. cbn in H.
      rewrite length_append in H. lia.
    + cbn in H. injection H as -> H. f_equal. auto.
Qed.

(** X17: the certificate, the private key and the signing request of one
    object never share a path, and under one root two names give two
    certificate paths. *)
Theorem X17_paths_apart (cert_root_path cert_name other_name : string) :
  Cert.get_certificate_path cert_root_path cert_name
  <> Cert.get_privatekey_path cert_root_path cert_name
  /\ Cert.get_certificate_path cert_root_path cert_name
     <> Cert.get_CSR_path cert_root_path cert_name
  /\ Cert.get_privatekey_path cert_root_path cert_name
     <> Cert.get_CSR_path cert_root_path cert_name
  /\ (Cert.get_certificate_path cert_root_path cert_name
      = Cert.get_certificate_path cert_root_path other_name ->
      cert_name = other_name).
Proof.
  unfold Cert.get_certificate_path, Cert.get_privatekey_path,
    Cert.get_CSR_path.
  repeat split.
  - intros H. apply append_cancel_l in H. cbn in H. injection H as H.
    apply append_cancel_l in H. discriminate.
  - intros H. apply append_cancel_l in H. cbn in H. injection H as H.
    apply append_cancel_l in H. discriminate.
  - intros H. apply append_cancel_l in H. cbn in H. injection H as H.
    apply append_cancel_l in H. discriminate.
  - intros H. apply append_cancel_l in H. cbn in H. injection H as H.
    exact (append_cancel_r _ _ _ H).
Qed.

Lemma X17_witness :
  Cert.get_certificate_path "/etc/certificates" "web"
  = Cert.get_certificate_path "/etc/certificates" "web"
  /\ "web" = "web".
Proof.
  split; [reflexivity|].
  exact (proj2 (proj2 (proj2 (X17_paths_apart "/etc/certificates" "web" "web")))
           eq_refl).
Defined.

(** ** The stored password *)

Section PwencFacts.

Context (pwenc_encrypt : string -> string)
        (pwenc_decrypt : string -> option string).

(** X18: a password set on a freshly loaded object comes back from the
    column that [save] wrote, when [pwenc_decrypt] undoes [pwenc_encrypt]
    and the cipher text of a non-empty password is not empty. *)
Theorem X18_password_round_trip (column p : string) :
  (forall x, pwenc_decrypt (pwenc_encrypt x) = Some x) ->
  (forall x, x <> "" -> pwenc_encrypt x <> "") ->
  passwd
    (secret_init pwenc_decrypt
       (snd (secret_save pwenc_encrypt
               (set_passwd p (secret_init pwenc_decrypt column)))))
  = p.
Proof.
  intros Hdec Hne. unfold secret_save, set_passwd, secret_init. cbn.
  destruct p as [|c p]; [reflexivity|]. cbn.
  rewrite Hdec.
  destruct (pwenc_encrypt (String c p)) eqn:He; [|reflexivity].
  destruct (Hne (String c p)); [discriminate|exact He].
Qed.

(** X19: saving twice is saving once: the second [save] leaves the object
    as the first left it and writes the same value, so a password is not
    encrypted twice. *)
Theorem X19_save_twice (o : secret) :
  secret_save pwenc_encrypt (fst (secret_save pwenc_encrypt o))
  = secret_save pwenc_encrypt o.
Proof.
  unfold secret_save.
  destruct (Str.truthy (passwd o) && negb (encrypted o)) eqn:E; cbn.
  - rewrite andb_false_r. reflexivity.
  - rewrite E. reflexivity.
Qed.

(** X20: once an object was saved with a non-empty password, a password
    assigned to it afterwards is written by the next [save] as it is, not
    encrypted. *)
Theorem X20_later_password_in_clear (o : secret) (p : string) :
  Str.truthy (passwd o) = true ->
  snd (secret_save pwenc_encrypt
         (set_passwd p (fst (secret_save pwenc_encrypt o))))
  = p.
Proof.
  intros Ht. unfold secret_save at 2. rewrite Ht.
  destruct (encrypted o) eqn:E; cbn.
  - unfold secret_save, set_passwd. cbn. rewrite E, andb_false_r. reflexivity.
  - unfold secret_save, set_passwd. cbn. rewrite andb_false_r. reflexivity.
Qed.

End PwencFacts.

Lemma X18_witness :
  passwd
    (secret_init (fun c => match c with
                           | String _ x => Some x
                           | EmptyString => None
                           end)
       (snd (secret_save (String "#")
               (set_passwd "secret"
                  (secret_init (fun c => match c with
                                         | String _ x => Some x
                                         | EmptyString => None
                                         end) "")))))
  = "secret".
Proof.
  apply (X18_password_round_trip (String "#")
           (fun c => match c with
                     | String _ x => Some x
                     | EmptyString => None
                     end) "" "secret").
  - reflexivity.
  - discriminate.
Defined.

Lemma X20_witness :
  snd (secret_save (String "#")
         (set_passwd "new"
            (fst (secret_save (String "#") (mkSecret "old" false)))))
  = "new".
Proof. apply X20_later_password_in_clear. reflexivity. Defined.

(** ** The relocator, member by member *)

Section RelocatorMembers.

Context {Rest : Type} (default_rest : Rest).
Implicit Types (db : apps Rest) (tbl : list (Interfaces Rest)).
Implicit Types (i : Interfaces Rest) (m : LAGGInterfaceMembers).

(** A row that is there keeps its place and all its columns but
    [int_options] to the end of the loop. *)
Lemma relocate_loop_row (ms : list LAGGInterfaceMembers) db db' k i :
  for_each (move_laggmember default_rest) db ms = Some db' ->
  interfaces db !! k = Some i ->
  set_int_options "" <$> interfaces db' !! k = Some (set_int_options "" i).
Proof.
  intros H Hk.
  destruct (relocate_loop_tables default_rest ms db db' H)
    as (_ & _ & (created & Hc)).
  apply (f_equal (fun l => l !! k)) in Hc.
  rewrite list_lookup_fmap in Hc. rewrite Hc.
  apply lookup_app_l_Some. rewrite list_lookup_fmap, Hk. reflexivity.
Qed.

(** C7: [move_laggmember_options] goes through when every member points to
    a LAGG that is there and whose parent row is there, and it reaches every
    member.  Where the NIC of the member has no row by then, it makes one
    behind the rows there are, with the NIC as [int_interface],
    ["member of "] and the name of the parent row of the owning LAGG as
    [int_name], and the relocated options; where the NIC has a row, it
    writes the relocated options into that row.
    The row found for the NIC by then is the row found in the tables of
    before the migration when no earlier member has the same NIC.  To the
    end of the loop the row keeps its place and all its columns but
    [int_options], and when no later member has the same NIC it is, as
    written, the row found for the NIC in the end. *)
Theorem C7_create_or_overwrite db
        (ms1 : list LAGGInterfaceMembers) m (ms2 : list LAGGInterfaceMembers) :
  lagginterfacemembers db = (ms1 ++ m :: ms2)%list ->
  ((forall m', m' ∈ lagginterfacemembers db ->
               exists lagg,
                 lagginterface db !! lagg_interfacegroup m' = Some lagg
                 /\ is_Some (interfaces db !! lagg_interface lagg)) ->
   exists db', move_laggmember_options default_rest db = Some db')
  /\ forall db',
  move_laggmember_options default_rest db = Some db' ->
  exists db1 db2,
    for_each (move_laggmember default_rest) db ms1 = Some db1
    /\ move_laggmember default_rest db1 m = Some db2
    /\ for_each (move_laggmember default_rest) db2 ms2 = Some db'
    /\ ((forall m', m' ∈ ms1 -> lagg_physnic m' <> lagg_physnic m) ->
        filter_int_interface (lagg_physnic m) (interfaces db1)
        = filter_int_interface (lagg_physnic m) (interfaces db))
    /\ (filter_int_interface (lagg_physnic m) (interfaces db1) = None ->
        exists lagg parent,
          lagginterface db !! lagg_interfacegroup m = Some lagg
          /\ interfaces db1 !! lagg_interface lagg = Some parent
          /\ interfaces db2
             = (interfaces db1 ++
                [mkInterfaces (lagg_physnic m)
                              ("member of " ++ int_interface parent)
                              (relocated_options (lagg_deviceoptions m))
                              None default_rest])%list
          /\ set_int_options "" <$> interfaces db' !! length (interfaces db1)
             = Some (mkInterfaces (lagg_physnic m)
                                  ("member of " ++ int_interface parent)
                                  "" None default_rest)
          /\ ((forall m', m' ∈ ms2 -> lagg_physnic m' <> lagg_physnic m) ->
              filter_int_interface (lagg_physnic m) (interfaces db')
              = Some (length (interfaces db1),
                      mkInterfaces (lagg_physnic m)
                                   ("member of " ++ int_interface parent)
                                   (relocated_options (lagg_deviceoptions m))
                                   None default_rest)))
    /\ (forall k i,
          filter_int_interface (lagg_physnic m) (interfaces db1) = Some (k, i) ->
          interfaces db2
          = <[k := set_int_options (relocated_options (lagg_deviceoptions m)) i]>
              (interfaces db1)
          /\ set_int_options "" <$> interfaces db' !! k
             = Some (set_int_options "" i)
          /\ ((forall m', m' ∈ ms2 -> lagg_physnic m' <> lagg_physnic m) ->
              filter_int_interface (lagg_physnic m) (interfaces db')
              = Some (k, set_int_options
                           (relocated_options (lagg_deviceoptions m)) i))).
Proof.
  intros E. split; [apply relocate_loop_success|].
  unfold move_laggmember_options. intros db' H.
  rewrite E, for_each_app in H.
  destruct (for_each (move_laggmember default_rest) db ms1) as [db1|] eqn:H1;
    [|discriminate].
  cbn [for_each] in H.
  destruct (move_laggmember default_rest db1 m) as [db2|] eqn:H2;
    [|discriminate].
  exists db1, db2. split; [reflexivity|]. split; [exact H2|].
  split; [exact H|].
  split; [exact (relocate_loop_other_nic default_rest ms1 db db1 _ H1)|].
  destruct (relocate_loop_tables default_rest ms1 db db1 H1) as (Hlagg & _).
  split.
  - intros Hf. unfold move_laggmember in H2. rewrite Hf, Hlagg in H2.
    destruct (lagginterface db !! lagg_interfacegroup m) as [lagg|] eqn:Hl;
      [|discriminate].
    cbn in H2.
    destruct (interfaces db1 !! lagg_interface lagg) as [parent|] eqn:Hp;
      [|discriminate].
    cbn in H2. injection H2 as <-.
    exists lagg, parent. cbn [interfaces with_interfaces] in *.
    split; [reflexivity|]. split; [exact Hp|]. split; [reflexivity|].
    split.
    + apply (relocate_loop_row ms2 _ db' (length (interfaces db1))
               (mkInterfaces (lagg_physnic m)
                             ("member of " ++ int_interface parent)
                             (relocated_options (lagg_deviceoptions m))
                             None default_rest) H).
      cbn [interfaces with_interfaces]. apply list_lookup_middle. reflexivity.
    + intros Hlast.
      rewrite (relocate_loop_other_nic default_rest ms2 _ db' _ H Hlast).
      cbn [interfaces with_interfaces]. rewrite filter_app, Hf, filter_one.
      cbn [int_interface]. rewrite String.eqb_refl.
      rewrite Nat.add_0_r. reflexivity.
  - intros k i Hf. unfold move_laggmember in H2. rewrite Hf in H2.
    injection H2 as <-. cbn [interfaces with_interfaces] in *.
    destruct (filter_lookup _ _ _ _ Hf) as [Hk _].
    split; [reflexivity|]. split.
    + apply (relocate_loop_row ms2 _ db' k
               (set_int_options (relocated_options (lagg_deviceoptions m)) i)
               H).
      cbn [interfaces with_interfaces].
      apply list_lookup_insert_eq. exact (lookup_lt_Some _ _ _ Hk).
    + intros Hlast.
      rewrite (relocate_loop_other_nic default_rest ms2 _ db' _ H Hlast).
      cbn [interfaces with_interfaces].
      rewrite (filter_insert _ _ _ i) by (assumption || reflexivity).
      rewrite Hf. destruct (decide (k = k)); [reflexivity|contradiction].
Qed.

End RelocatorMembers.

Lemma C7_witness :
  move_laggmember_options tt Sample.db_before
  = Some (mkApps [Sample.row "lagg0" "lagg0" "" None;
                  Sample.row "em0" "em0" "mtu 9000" None;
                  Sample.row "em1" "member of lagg0" "mtu 1500" None]
                 (lagginterface Sample.db_before)
                 (lagginterfacemembers Sample.db_before))
  /\ filter_int_interface "em1"
       [Sample.row "lagg0" "lagg0" "" None;
        Sample.row "em0" "em0" "mtu 9000" None;
        Sample.row "em1" "member of lagg0" "mtu 1500" None]
     = Some (2%nat, Sample.row "em1" "member of lagg0" "mtu 1500" None)
  /\ filter_int_interface "em0"
       [Sample.row "lagg0" "lagg0" "" None;
        Sample.row "em0" "em0" "mtu 9000" None;
        Sample.row "em1" "member of lagg0" "mtu 1500" None]
     = Some (1%nat, Sample.row "em0" "em0" "mtu 9000" None).
Proof.
  split; [reflexivity|]. split.
  - destruct (proj2 (C7_create_or_overwrite tt Sample.db_before
                         [mkLAGGInterfaceMembers 0 "em0" "up mtu 9000"]
                         (mkLAGGInterfaceMembers 0 "em1" "mtu 1500 up") []
                         eq_refl) _ eq_refl)
      as (db1 & db2 & H1 & _ & _ & _ & Hcreate & _).
    cbv in H1. injection H1 as <-.
    destruct (Hcreate eq_refl) as (lagg & parent & Hl & Hp & _ & _ & Hfound).
    cbv in Hl. injection Hl as <-.
    cbv in Hp. injection Hp as <-.
    apply Hfound. intros m' Hin. apply elem_of_nil in Hin. contradiction.
  - destruct (proj2 (C7_create_or_overwrite tt Sample.db_before
                         []
                         (mkLAGGInterfaceMembers 0 "em0" "up mtu 9000")
                         [mkLAGGInterfaceMembers 0 "em1" "mtu 1500 up"]
                         eq_refl) _ eq_refl)
      as (db1 & db2 & H1 & _ & _ & _ & _ & Hover).
    cbv in H1. injection H1 as <-.
    destruct (Hover 1%nat (Sample.row "em0" "em0" "media auto" None) eq_refl)
      as (_ & _ & Hfound).
    apply Hfound. intros m' Hin.
    apply list_elem_of_lookup_1 in Hin as [j Hj].
    destruct j as [|j]; cbn in Hj; [|discriminate].
    injection Hj as <-. discriminate.
Defined.
